(** * Chronos: the chunked upload orchestrator and the job status poller

    A shallow embedding of [frontend/components/VideoUploader] (the
    [VideoUploader] React component of [src/frontend/app/page.tsx]):
    [handleFile], [uploadFile] and the polling effect, with the properties
    the design document states about them.

    Conventions of the embedding.
    - JavaScript numbers that hold byte counts and part indices are
      integers below 2^53, where double arithmetic is exact: they are [Z].
      [Math.ceil (file.size / CHUNK_SIZE)] is the ceiling of the exact
      quotient, [Qceiling] over [Q].
    - The progress value is a sum of non-integral doubles, so it is kept as
      an IEEE binary64 number ([PrimFloat.float]) with the very operations
      of the source.
    - A value that may be [undefined]/[null] is an [option]; JavaScript
      truthiness of such a string ([!x], [x || y]) is [truthy].
    - [throw new Error (msg)] is the left injection of a sum, carrying the
      message.
    - What the collaborators answer ([fetch] responses, the order in which
      the transfers settle) is an explicit argument, the [World]. Every
      [fetch] is answered and every body parses: a call that fails at the
      network level is outside the model. *)

From Stdlib Require Import ZArith QArith Qround String Ascii List Bool Lia.
From Stdlib Require Import Permutation Sorted DecimalString PrimFloat.
Import ListNotations.

#[local] Open Scope string_scope.
#[local] Open Scope Z_scope.

(** ** JavaScript helpers *)

Module JS.

(** [s.startsWith (p)] *)
Definition startsWith (s p : string) : bool := String.prefix p s.

(** Truthiness of a possibly missing string: [undefined], [null] and the
    empty string are falsy. *)
Definition truthy (v : option string) : bool :=
  match v with
  | Some s => negb (String.eqb s "")
  | None => false
  end.

(** [v || d] on a possibly missing string. *)
Definition or_else (v : option string) (d : string) : string :=
  match v with
  | Some s => if String.eqb s "" then d else s
  | None => d
  end.

(** A number inside a template literal; the numbers rendered here are
    integers. *)
Definition show (z : Z) : string := NilZero.string_of_int (Z.to_int z).

(** [Math.ceil] *)
Definition Math_ceil (q : Q) : Z := Qceiling q.

(** [s.replace (/c/g, '')]: every occurrence of the character is dropped. *)
Fixpoint remove_all (c : ascii) (s : string) : string :=
  match s with
  | EmptyString => EmptyString
  | String a r => if Ascii.eqb a c then remove_all c r else String a (remove_all c r)
  end.

(** The double nearest to a positive integer (exact below 2^53). *)
Fixpoint float_of_pos (p : positive) : float :=
  match p with
  | xH => 1%float
  | xO q => PrimFloat.mul 2%float (float_of_pos q)
  | xI q => PrimFloat.add (PrimFloat.mul 2%float (float_of_pos q)) 1%float
  end.

Definition float_of_Z (z : Z) : float :=
  match z with
  | Z0 => 0%float
  | Zpos p => float_of_pos p
  | Zneg p => PrimFloat.opp (float_of_pos p)
  end.

End JS.

(** ** Data model *)

(** The [File] fields the component reads. *)
Record File := { name : string; type : string; size : Z }.

(** The component's React state. *)
Record State := {
  isDragOver : bool;
  file : option File;
  error : option string;
  uploading : bool;
  progress : float;
  taskId : option string;
  processingStatus : option string
}.

Definition initial : State :=
  {| isDragOver := false; file := None; error := None; uploading := false;
     progress := 0%float; taskId := None; processingStatus := None |}.

Definition setFile (v : option File) (s : State) : State :=
  {| isDragOver := isDragOver s; file := v; error := error s;
     uploading := uploading s; progress := progress s; taskId := taskId s;
     processingStatus := processingStatus s |}.

Definition setError (v : option string) (s : State) : State :=
  {| isDragOver := isDragOver s; file := file s; error := v;
     uploading := uploading s; progress := progress s; taskId := taskId s;
     processingStatus := processingStatus s |}.

Definition setUploading (v : bool) (s : State) : State :=
  {| isDragOver := isDragOver s; file := file s; error := error s;
     uploading := v; progress := progress s; taskId := taskId s;
     processingStatus := processingStatus s |}.

Definition setProgress (v : float) (s : State) : State :=
  {| isDragOver := isDragOver s; file := file s; error := error s;
     uploading := uploading s; progress := v; taskId := taskId s;
     processingStatus := processingStatus s |}.

Definition setTaskId (v : option string) (s : State) : State :=
  {| isDragOver := isDragOver s; file := file s; error := error s;
     uploading := uploading s; progress := progress s; taskId := v;
     processingStatus := processingStatus s |}.

Definition setProcessingStatus (v : option string) (s : State) : State :=
  {| isDragOver := isDragOver s; file := file s; error := error s;
     uploading := uploading s; progress := progress s; taskId := taskId s;
     processingStatus := v |}.

Definition CHUNK_SIZE : Z := 5 * 1024 * 1024.

(** ** Object validation: [handleFile] *)

Definition handleFile (selectedFile : File) (s : State) : State :=
  if negb (JS.startsWith (type selectedFile) "video/") then
    setFile None
      (setError (Some "Invalid file type. Please select a video file.") s)
  else if size selectedFile >? 2 * 1024 * 1024 * 1024 then
    setFile None
      (setError (Some "File is too large. The maximum file size is 2GB.") s)
  else
    setProcessingStatus None
      (setTaskId None
         (setProgress 0%float
            (setFile (Some selectedFile) (setError None s)))).

(** ** The chunk plan of [uploadFile] *)

(** One iteration's [start], [end] and [partNumber]. *)
Record PartDescriptor := { partNumber : Z; start : Z; end_ : Z }.

Definition totalChunks (f : File) : Z :=
  JS.Math_ceil (inject_Z (size f) / inject_Z CHUNK_SIZE).

Definition chunk (f : File) (i : Z) : PartDescriptor :=
  let start := i * CHUNK_SIZE in
  let end_ := Z.min (start + CHUNK_SIZE) (size f) in
  {| partNumber := i + 1; start := start; end_ := end_ |}.

(** [for (let i = ...; i < totalChunks; i++)], with [remaining] the number
    of iterations left. *)
Fixpoint for_chunks (f : File) (remaining : nat) (i : Z) : list PartDescriptor :=
  match remaining with
  | O => []
  | S r => chunk f i :: for_chunks f r (i + 1)
  end.

Definition chunkPlan (f : File) : list PartDescriptor :=
  for_chunks f (Z.to_nat (totalChunks f)) 0.

Definition covers (b : Z) (p : PartDescriptor) : Prop := start p <= b < end_ p.

(** ** The upload operation: [uploadFile] *)

(** What a [throw] carries: an [Error] built by the component with its
    message, or the [TypeError] of reading a property of [undefined]. *)
Inductive Exn :=
| Error (message : string)
| TypeError (reading : string).

(** An entry of [uploadedParts]. *)
Record Part := { PartNumber : Z; ETag : string }.

(** The calls of [fetch]. [PutChunk] carries the bounds of
    [file.slice (start, end)], its body. *)
Inductive Request :=
| Initialize (objectKey : string)
| PartTarget (objectKey uploadId : string) (partNumber : Z)
| PutChunk (url : string) (start end_ : Z)
| Complete (objectKey uploadId : string) (parts : list Part)
| Status (taskId : string).

(** The response of a part's PUT: [res.ok] and [res.headers.get ('ETag')]. *)
Record PutResponse := { ok : bool; ETag_header : option string }.

(** The response of the completion call: [completeResponse.ok] and the
    fields of its body. *)
Record CompleteResponse := {
  complete_ok : bool;
  result_taskId : option string;
  result_error : option string
}.

(** The collaborators during one run of [uploadFile]: the clock, the body of
    each response, [settled], the part numbers in the order in which their
    PUT promises settle, and [early], how many of these settle while the
    loop is still running, before [Promise.all] is called. *)
Record World := {
  now : Z;
  initialize : option string;
  part_url : Z -> string;
  put : Z -> PutResponse;
  settled : list Z;
  early : nat;
  complete : list Part -> CompleteResponse
}.

Definition double_quote : ascii := "034"%char.

(** The local array [uploadedParts] together with the React state, which
    the completion callbacks update. *)
Record Transfer := { uploadedParts : list Part; ui : State }.

(** The value added to the progress by one completed part. *)
Definition increment (totalChunks : Z) : float :=
  PrimFloat.mul (PrimFloat.div 1%float (JS.float_of_Z totalChunks)) 100%float.

(** The callback given to [.then] for part [partNumber]. *)
Definition on_put (totalChunks partNumber : Z) (res : PutResponse)
    (t : Transfer) : Exn + Transfer :=
  if negb (ok res) then
    inl (Error ("Upload of part " ++ JS.show partNumber ++ " failed."))
  else
    match ETag_header res with
    | Some etag =>
        if String.eqb etag "" then
          inl (Error ("ETag not found for part " ++ JS.show partNumber ++ "."))
        else
          inr {| uploadedParts :=
                   uploadedParts t ++
                   [{| PartNumber := partNumber;
                       ETag := JS.remove_all double_quote etag |}];
                 ui := setProgress
                         (PrimFloat.add (progress (ui t)) (increment totalChunks))
                         (ui t) |}
    | None =>
        inl (Error ("ETag not found for part " ++ JS.show partNumber ++ "."))
    end.

(** The callbacks run in the order in which the transfers settle; the
    result is the transfer state and the promises that rejected, with their
    reasons, in that order. A rejection stops nothing: the callbacks of the
    transfers that settle later still run. *)
Fixpoint settle (w : World) (totalChunks : Z) (order : list Z)
    (t : Transfer) : Transfer * list (Z * Exn) :=
  match order with
  | [] => (t, [])
  | partNumber :: rest =>
      match on_put totalChunks partNumber (put w partNumber) t with
      | inl e =>
          let '(t', rejected) := settle w totalChunks rest t in
          (t', (partNumber, e) :: rejected)
      | inr t' => settle w totalChunks rest t'
      end
  end.

Fixpoint reason_of (partNumber : Z) (rejected : list (Z * Exn)) : option Exn :=
  match rejected with
  | [] => None
  | (q, e) :: rest => if q =? partNumber then Some e else reason_of partNumber rest
  end.

Fixpoint first_rejected (promises : list Z) (rejected : list (Z * Exn)) : option Exn :=
  match promises with
  | [] => None
  | p :: rest =>
      match reason_of p rejected with
      | Some e => Some e
      | None => first_rejected rest rejected
      end
  end.

(** The reason with which [Promise.all (promises)] rejects, if it does.
    [Promise.all] subscribes to the promises in the order of the array: of
    those that had rejected before the call, the first in the array decides;
    otherwise the first to reject after the call does. *)
Definition Promise_all (promises : list Z)
    (rejected_before rejected_after : list (Z * Exn)) : option Exn :=
  match first_rejected promises rejected_before with
  | Some e => Some e
  | None =>
      match rejected_after with
      | (_, e) :: _ => Some e
      | [] => None
      end
  end.

(** The two requests of one iteration of the loop. *)
Definition launch (w : World) (objectKey uploadId : string)
    (p : PartDescriptor) : list Request :=
  [ PartTarget objectKey uploadId (partNumber p);
    PutChunk (part_url w (partNumber p)) (start p) (end_ p) ].

Definition message_of (e : Exn) : option string :=
  match e with
  | Error m => Some m
  | TypeError _ => Some "Cannot read properties of undefined"
  end.

(** [catch (err)] followed by [finally]. *)
Definition catch_finally (e : Exn) (s : State) : State :=
  setUploading false
    (setError
       (Some (JS.or_else (message_of e) "An unknown error occurred during upload."))
       s).

(** Has every launched transfer settled? Otherwise [Promise.all] stays
    pending. *)
Definition all_settled (w : World) (plan : list PartDescriptor) : bool :=
  forallb (fun p => existsb (Z.eqb (partNumber p)) (settled w)) plan.

(** [uploadFile]: the state it leaves and the requests it sends, in order.
    The loop sends its requests whatever the earlier transfers do, and the
    callbacks send none, so the interleaving of the two shows in the reason
    of [Promise.all] only. *)
Definition uploadFile (w : World) (s : State) : State * list Request :=
  match file s with
  | None => (setError (Some "No file selected.") s, [])
  | Some f =>
      let s := setProgress 0%float (setError None (setUploading true s)) in
      let totalChunks := totalChunks f in
      let objectKey := JS.show (now w) ++ "_" ++ name f in
      match initialize w with
      | Some uploadId =>
          if String.eqb uploadId "" then
            (catch_finally (Error "Failed to initialize upload.") s,
             [Initialize objectKey])
          else
            let sent :=
              Initialize objectKey ::
              flat_map (launch w objectKey uploadId) (chunkPlan f) in
            let '(t, rejected_before) :=
              settle w totalChunks (firstn (early w) (settled w))
                {| uploadedParts := []; ui := s |} in
            let '(t, rejected_after) :=
              settle w totalChunks (skipn (early w) (settled w)) t in
            match Promise_all (map partNumber (chunkPlan f))
                    rejected_before rejected_after with
            | Some e => (catch_finally e (ui t), sent)
            | None =>
                if all_settled w (chunkPlan f) then
                  let r := complete w (uploadedParts t) in
                  let sent :=
                    (sent ++ [Complete objectKey uploadId (uploadedParts t)])%list in
                  if complete_ok r then
                    (setUploading false
                       (setProcessingStatus
                          (Some "Upload complete. Waiting for processing to start...")
                          (setTaskId (result_taskId r) (ui t))),
                     sent)
                  else
                    (catch_finally
                       (Error (JS.or_else (result_error r) "Failed to complete upload."))
                       (ui t),
                     sent)
                else (ui t, sent)
            end
      | None =>
          (catch_finally (Error "Failed to initialize upload.") s,
           [Initialize objectKey])
      end
  end.

Definition setIsDragOver (v : bool) (s : State) : State :=
  {| isDragOver := v; file := file s; error := error s;
     uploading := uploading s; progress := progress s; taskId := taskId s;
     processingStatus := processingStatus s |}.

Definition handleDrop (files : list File) (s : State) : State :=
  match files with
  | f :: _ => handleFile f (setIsDragOver false s)
  | [] => setIsDragOver false s
  end.

Definition handleFileChange (files : list File) (s : State) : State :=
  match files with
  | f :: _ => handleFile f s
  | [] => s
  end.

(** Did the transfer of a part succeed: a 2xx response that carries a
    non-empty [ETag] header? *)
Definition succeeds (res : PutResponse) : bool :=
  ok res && JS.truthy (ETag_header res).

(** The transfer state at the moment the first [k] transfers have settled:
    what a caller that samples [progress] then sees. *)
Definition transfer_after (w : World) (s : State) (f : File) (k : nat) : Transfer :=
  fst (settle w (totalChunks f) (firstn k (settled w))
         {| uploadedParts := [];
            ui := setProgress 0%float (setError None (setUploading true s)) |}).


(** [k] increments of [inc] from [p]. *)
Definition raised (inc : float) (k : nat) (p : float) : float :=
  Nat.iter k (fun x => PrimFloat.add x inc) p.

(** The progress after [k] completed parts of a plan of [n] parts. *)
Definition progress_of (n : Z) (k : nat) : float :=
  raised (increment n) k 0%float.







(** ** The polling effect *)

(** The body of a status response, [{state, info: {status}}]; [info] may be
    absent, and so may [status] inside it. *)
Record Info := { status : option string }.
Record StatusData := { state : string; info : option Info }.

(** The body of the interval callback once the response is parsed. The
    boolean tells whether [clearInterval (interval)] was called. Reading
    [data.info.status] when [data.info] is absent throws. *)
Definition on_status (d : StatusData) (s : State) : Exn + State * bool :=
  if String.eqb (state d) "PROGRESS" then
    match info d with
    | Some i =>
        inr (setProcessingStatus
               (Some (JS.or_else (status i) "Processing...")) s, false)
    | None => inl (TypeError "status")
    end
  else if String.eqb (state d) "SUCCESS" then
    inr (setProcessingStatus (Some "Processing complete!") s, true)
  else if String.eqb (state d) "FAILURE" then
    match info d with
    | Some i =>
        inr (setProcessingStatus
               (Some ("Processing failed: " ++ JS.or_else (status i) "Unknown error"))
               s, true)
    | None => inl (TypeError "status")
    end
  else inr (s, false).

(** One run of the effect for a task: the React state it writes to, whether
    its interval is still scheduled, the status queries it has sent, and the
    rejections of its callback, which nothing handles. *)
Record Poller := {
  shown : State;
  live : bool;
  queries : list Request;
  unhandled : list Exn
}.

(** [useEffect (..., [taskId])]: no interval without a task identifier. *)
Definition useEffect (s : State) : option Poller :=
  if JS.truthy (taskId s) then
    Some {| shown := s; live := true; queries := []; unhandled := [] |}
  else None.

(** What happens to a running effect: the interval fires (and sends a
    query), the response to a query arrives (and is handled, also when the
    interval was cleared meanwhile), or React runs the cleanup. *)
Inductive PollEvent :=
| Tick
| Response (d : StatusData)
| Cleanup.

Definition poll (task : string) (e : PollEvent) (p : Poller) : Poller :=
  match e with
  | Tick =>
      if live p then
        {| shown := shown p; live := true;
           queries := queries p ++ [Status task]; unhandled := unhandled p |}
      else p
  | Response d =>
      match on_status d (shown p) with
      | inr (s, cleared) =>
          {| shown := s; live := live p && negb cleared;
             queries := queries p; unhandled := unhandled p |}
      | inl e =>
          {| shown := shown p; live := live p;
             queries := queries p; unhandled := unhandled p ++ [e] |}
      end
  | Cleanup =>
      {| shown := shown p; live := false;
         queries := queries p; unhandled := unhandled p |}
  end.

Definition run_poller (task : string) (es : list PollEvent) (p : Poller) : Poller :=
  fold_left (fun p e => poll task e p) es p.

(** ** The states of the component *)

(** The states the component goes through, by its handlers. *)
Inductive Reachable : State -> Prop :=
| R_initial : Reachable initial
| R_drag s b : Reachable s -> Reachable (setIsDragOver b s)
| R_handleFile s f : Reachable s -> Reachable (handleFile f s)
| R_handleDrop s fs : Reachable s -> Reachable (handleDrop fs s)
| R_handleFileChange s fs : Reachable s -> Reachable (handleFileChange fs s)
| R_uploadFile s w : Reachable s -> Reachable (fst (uploadFile w s))
| R_on_status s d s' c :
    Reachable s -> on_status d s = inr (s', c) -> Reachable s'.

(** The check of [handleFile], as a predicate. *)
Definition accepted (f : File) : Prop :=
  JS.startsWith (type f) "video/" = true /\ size f <= 2 * 1024 * 1024 * 1024.

(** What the user does, with the requests sent so far. *)
Inductive Action :=
| SelectFile (f : File)
| ClickUpload (w : World).

Definition act (a : Action) (c : State * list Request) : State * list Request :=
  match a with
  | SelectFile f => (handleFile f (fst c), snd c)
  | ClickUpload w =>
      let '(s, sent) := uploadFile w (fst c) in (s, (snd c ++ sent)%list)
  end.

(** The entry a successful transfer of part [partNumber] records. *)
Definition recorded (w : World) (partNumber : Z) : Part :=
  {| PartNumber := partNumber;
     ETag := JS.remove_all double_quote (JS.or_else (ETag_header (put w partNumber)) "") |}.

(** The reason with which the promise of a failed transfer rejects. *)
Definition rejection (partNumber : Z) (res : PutResponse) : Exn :=
  if ok res then Error ("ETag not found for part " ++ JS.show partNumber ++ ".")
  else Error ("Upload of part " ++ JS.show partNumber ++ " failed.").

(** The object key of a run: [`${Date.now ()}_${file.name}`]. *)
Definition object_key (w : World) (f : File) : string :=
  JS.show (now w) ++ "_" ++ name f.

(** The requests of the loop over the plan. *)
Definition launched (w : World) (f : File) (uploadId : string) : list Request :=
  flat_map (launch w (object_key w f) uploadId) (chunkPlan f).

Definition is_Complete (r : Request) : bool :=
  match r with
  | Complete _ _ _ => true
  | _ => false
  end.

(** ** Scenarios *)

(** The 12 MiB scenario: three parts of 5, 5 and 2 MiB. *)
Definition twelve_MiB : File :=
  {| name := "clip.mp4"; type := "video/mp4"; size := 12 * 1024 * 1024 |}.

(** An empty recording. *)
Definition empty_video : File :=
  {| name := "empty.mp4"; type := "video/mp4"; size := 0 |}.

(** A 3 GiB recording. *)
Definition three_GiB : File :=
  {| name := "long.mp4"; type := "video/mp4"; size := 3 * 1024 * 1024 * 1024 |}.

(** A backend where every call succeeds and the transfers settle in the
    order given. *)
Definition backend (order : list Z) : World :=
  {| now := 1754784000000;
     initialize := Some "upload-1";
     part_url := fun n => "https://storage/part/" ++ JS.show n;
     put := fun n => {| ok := true; ETag_header := Some ("e" ++ JS.show n) |};
     settled := order;
     early := 0;
     complete := fun _ => {| complete_ok := true; result_taskId := Some "task-1";
                             result_error := None |} |}.

(** The same backend, whose initialization response has no [uploadId]. *)
Definition backend_without_uploadId : World :=
  {| now := 1754784000000;
     initialize := None;
     part_url := part_url (backend []);
     put := put (backend []);
     settled := [];
     early := 0;
     complete := complete (backend []) |}.

(** The backend that accepts the bytes of part 2 but answers without an
    [ETag]; the transfers settle in the order 1, 3, 2, the first of them
    while the loop is still running. *)
Definition backend_part2_without_ETag : World :=
  {| now := 1754784000000;
     initialize := Some "upload-1";
     part_url := part_url (backend []);
     put := fun n =>
       if n =? 2 then {| ok := true; ETag_header := None |}
       else put (backend []) n;
     settled := [1; 3; 2];
     early := 1;
     complete := complete (backend []) |}.

(** An object of one chunk and one byte: two parts. *)
Definition two_parts : File :=
  {| name := "clip.mp4"; type := "video/mp4"; size := 5 * 1024 * 1024 + 1 |}.


(** An object of 45 MiB: nine parts. *)
Definition nine_parts : File :=
  {| name := "clip.mp4"; type := "video/mp4"; size := 45 * 1024 * 1024 |}.

(** The state after the 12 MiB object was uploaded and committed, and the
    effect that then starts polling for its task. *)
Definition uploaded : State :=
  fst (uploadFile (backend [1; 2; 3]) (handleFile twelve_MiB initial)).

Definition polling : Poller :=
  {| shown := uploaded; live := true; queries := []; unhandled := [] |}.

(** Status responses. *)
Definition queued : StatusData :=
  {| state := "QUEUED"; info := Some {| status := Some "Waiting for a worker" |} |}.

Definition transcribing : StatusData :=
  {| state := "PROGRESS"; info := Some {| status := Some "Transcribing" |} |}.

Definition success : StatusData := {| state := "SUCCESS"; info := None |}.

Definition failure_without_info : StatusData :=
  {| state := "FAILURE"; info := None |}.

(** The backend that refuses parts 1 and 2; part 2 settles first, and both
    have settled when the loop ends. *)
Definition backend_parts_1_and_2_fail : World :=
  {| now := 1754784000000;
     initialize := Some "upload-1";
     part_url := part_url (backend []);
     put := fun n =>
       if n =? 3 then put (backend []) n
       else {| ok := false; ETag_header := None |};
     settled := [2; 1; 3];
     early := 2;
     complete := complete (backend []) |}.

(** ** The other handlers of the component, and what it renders *)

Definition handleDragOver (s : State) : State := setIsDragOver true s.

Definition handleDragLeave (s : State) : State := setIsDragOver false s.

(** The conditions of the JSX: the error paragraph ([error && ...]), the
    panel of the selected file with the upload button
    ([file && !error && ...]), and, inside that panel, the progress bar
    ([uploading && ...]) and the processing status
    ([processingStatus && ...]). The button is [disabled] while
    [uploading]. *)
Definition renders_error (s : State) : bool := JS.truthy (error s).

Definition renders_selection (s : State) : bool :=
  match file s with
  | Some _ => negb (JS.truthy (error s))
  | None => false
  end.

Definition renders_progress_bar (s : State) : bool :=
  renders_selection s && uploading s.

Definition renders_processing_status (s : State) : bool :=
  renders_selection s && JS.truthy (processingStatus s).

Definition button_disabled (s : State) : bool := uploading s.

(** [Math.round (x)] for [x] from -0.5 up to 1023.5: the nearest integer,
    a tie going up, that is the least [k] with [x < k + 0.5]. Outside this
    range (and on NaN) the model gives no value. *)
Fixpoint round_from (x : float) (k : Z) (fuel : nat) : option Z :=
  match fuel with
  | O => None
  | S f =>
      if PrimFloat.ltb x (PrimFloat.add (JS.float_of_Z k) 0.5%float) then Some k
      else round_from x (k + 1) f
  end.

Definition Math_round (x : float) : option Z :=
  if PrimFloat.leb (PrimFloat.opp 0.5%float) x then round_from x 0 1024 else None.

(** The text of the upload button. *)
Definition button_label (s : State) : option string :=
  if uploading s then
    option_map (fun z => "Uploading... " ++ JS.show z ++ "%") (Math_round (progress s))
  else Some "Upload Video".





(** A file of exactly 2 GiB, and one of a byte more. *)
Definition two_GiB : File :=
  {| name := "long.mp4"; type := "video/mp4"; size := 2 * 1024 * 1024 * 1024 |}.

Definition two_GiB_and_a_byte : File :=
  {| name := "long.mp4"; type := "video/mp4"; size := 2 * 1024 * 1024 * 1024 + 1 |}.

(** The outcomes of [uploadFile] once the initialization has answered with
    an [uploadId]: [Promise.all] rejects, or stays pending, or is fulfilled
    and the completion call answers. *)
Inductive Outcome (w : World) (s : State) (f : File) (uploadId : string) : Prop :=
| Rejected (e : Exn) (t : Transfer) :
    uploadFile w s =
      (catch_finally e (ui t), Initialize (object_key w f) :: launched w f uploadId) ->
    t = fst (settle w (totalChunks f) (settled w)
               {| uploadedParts := [];
                  ui := setProgress 0%float (setError None (setUploading true s)) |}) ->
    (exists q, In q (settled w) /\ succeeds (put w q) = false /\
               e = rejection q (put w q)) ->
    Outcome w s f uploadId
| Pending (t : Transfer) :
    uploadFile w s =
      (ui t, Initialize (object_key w f) :: launched w f uploadId) ->
    t = fst (settle w (totalChunks f) (settled w)
               {| uploadedParts := [];
                  ui := setProgress 0%float (setError None (setUploading true s)) |}) ->
    (forall p, In p (chunkPlan f) -> In (partNumber p) (settled w) ->
               succeeds (put w (partNumber p)) = true) ->
    (exists p, In p (chunkPlan f) /\ ~ In (partNumber p) (settled w)) ->
    Outcome w s f uploadId
| Completed (t : Transfer) :
    uploadFile w s =
      ((if complete_ok (complete w (uploadedParts t)) then
          setUploading false
            (setProcessingStatus
               (Some "Upload complete. Waiting for processing to start...")
               (setTaskId (result_taskId (complete w (uploadedParts t))) (ui t)))
        else
          catch_finally
            (Error (JS.or_else (result_error (complete w (uploadedParts t)))
                      "Failed to complete upload."))
            (ui t)),
       (Initialize (object_key w f) :: launched w f uploadId ++
        [Complete (object_key w f) uploadId (uploadedParts t)])%list) ->
    t = fst (settle w (totalChunks f) (settled w)
               {| uploadedParts := [];
                  ui := setProgress 0%float (setError None (setUploading true s)) |}) ->
    (forall p, In p (chunkPlan f) ->
               In (partNumber p) (settled w) /\
               succeeds (put w (partNumber p)) = true) ->
    Outcome w s f uploadId.

(** A backend whose completion call answers with an error, with or without
    a text. *)
Definition backend_refusing (text : option string) : World :=
  {| now := 1754784000000;
     initialize := Some "upload-1";
     part_url := part_url (backend []);
     put := put (backend []);
     settled := [1; 2; 3];
     early := 0;
     complete := fun _ => {| complete_ok := false; result_taskId := None;
                             result_error := text |} |}.

(** A backend whose completion call succeeds without a task identifier. *)
Definition backend_without_taskId : World :=
  {| now := 1754784000000;
     initialize := Some "upload-1";
     part_url := part_url (backend []);
     put := put (backend []);
     settled := [1; 2; 3];
     early := 0;
     complete := fun _ => {| complete_ok := true; result_taskId := None;
                             result_error := None |} |}.

(** A backend where the transfer of part 2 never settles. *)
Definition backend_part2_never_settles : World :=
  {| now := 1754784000000;
     initialize := Some "upload-1";
     part_url := part_url (backend []);
     put := put (backend []);
     settled := [3; 1];
     early := 0;
     complete := complete (backend []) |}.

(** Is the string made of the one character only? *)
Fixpoint only (c : ascii) (s : string) : bool :=
  match s with
  | EmptyString => true
  | String a r => Ascii.eqb a c && only c r
  end.

(** The number of times the interval fires in a run. *)
Definition ticks (es : list PollEvent) : nat :=
  List.length (filter (fun e => match e with Tick => true | _ => false end) es).

(** A run in which every query is answered before the interval fires
    again: the responses [ds], one after each tick. *)
Definition answered (ds : list StatusData) : list PollEvent :=
  flat_map (fun d => [Tick; Response d]) ds.

(** Is the event the arrival of a response? *)
Definition is_Response (e : PollEvent) : bool :=
  match e with
  | Response _ => true
  | _ => false
  end.

(** ** The unified log server and its viewer

    The Express application that collects the logs of the other services
    and serves the page that shows them. A field of a JSON body is a string
    or some other value, of which the code uses the truthiness and the text
    it has inside a template literal only; an absent field is such a value,
    falsy. [toLowerCase] and [toUpperCase] are those of JavaScript strings,
    taken as they are. A throw inside a route handler is answered by
    Express with the status 500. *)

Module LogServer.

Inductive Value :=
| Str (s : string)
| Other (truthy : bool) (text : string).

Definition is_truthy (v : Value) : bool :=
  match v with
  | Str s => negb (String.eqb s "")
  | Other b _ => b
  end.

(** The value inside a template literal. *)
Definition text_of (v : Value) : string :=
  match v with
  | Str s => s
  | Other _ t => t
  end.

(** The fields that the handler reads from [req.body]. *)
Record LogBody := {
  source : Value;
  level : Value;
  message : Value;
  timestamp : Value
}.

Record LogEntry := {
  entry : LogBody;
  receivedAt : string
}.

(** The state of the process: the array [logs] and the lines written with
    [console.log]. *)
Record Server := { logs : list LogEntry; stdout : list string }.


Inductive Reply :=
| BadRequest (error : string)
| Accepted
| ServerError (e : Exn)
| Json (body : list LogEntry)
| Page.

(** The requests the application routes; [PostLogs] carries the parsed body
    and what [new Date ().toISOString ()] gives when it is handled. *)
Inductive Call :=
| PostLogs (clock : string) (body : LogBody)
| GetLogs
| GetRoot.

Section Strings.

Variable toLowerCase : string -> string.
Variable toUpperCase : string -> string.

(** [app.post ('/logs', ...)] *)
Definition post_logs (clock : string) (body : LogBody) (sv : Server) : Server * Reply :=
  if negb (is_truthy (source body)) || negb (is_truthy (level body)) ||
     negb (is_truthy (message body)) || negb (is_truthy (timestamp body)) then
    (sv, BadRequest "Log message must include source, level, message, and timestamp.")
  else
    let logEntry := {| entry := body; receivedAt := clock |} in
    let pushed := (logs sv ++ [logEntry])%list in
    match level body with
    | Str lvl =>
        let line :=
          "[" ++ toUpperCase lvl ++ "] from " ++ text_of (source body) ++
          ": " ++ text_of (message body) in
        ({| logs := pushed; stdout := (stdout sv ++ [line])%list |}, Accepted)
    | Other _ _ =>
        ({| logs := pushed; stdout := stdout sv |}, ServerError (TypeError "toUpperCase"))
    end.

Definition serve (c : Call) (sv : Server) : Server * Reply :=
  match c with
  | PostLogs clock body => post_logs clock body sv
  | GetLogs => (sv, Json (logs sv))
  | GetRoot => (sv, Page)
  end.

Definition run (cs : list Call) (sv : Server) : Server :=
  fold_left (fun sv c => fst (serve c sv)) cs sv.

(** Are the four fields of the body truthy? *)
Definition complete_body (body : LogBody) : bool :=
  is_truthy (source body) && is_truthy (level body) &&
  is_truthy (message body) && is_truthy (timestamp body).

Definition is_Str (v : Value) : bool :=
  match v with
  | Str _ => true
  | Other _ _ => false
  end.

(** The entry a call stores, if it stores one. *)
Definition stored (c : Call) : list LogEntry :=
  match c with
  | PostLogs clock body =>
      if complete_body body then [{| entry := body; receivedAt := clock |}] else []
  | _ => []
  end.

(** *** The viewer *)

(** [s.includes (t)] *)
Fixpoint includes (s t : string) : bool :=
  String.prefix t s ||
  match s with
  | EmptyString => false
  | String _ r => includes r t
  end.

(** A [div] appended to the container: its class and the text assigned to
    its [innerHTML]. *)
Record Element := { className : string; innerHTML : string }.

Definition nl : string := String "010"%char EmptyString.

Definition q : string := String double_quote EmptyString.

Fixpoint spaces (n : nat) : string :=
  match n with
  | O => EmptyString
  | S m => String " "%char (spaces m)
  end.

(** The state of the page: [allLogs], the values of the two filter inputs
    and the children of [logContainer], with what [console.error] was
    given. *)
Record Viewer := {
  allLogs : list LogEntry;
  sourceFilter : string;
  levelFilter : string;
  logContainer : list Element;
  reported : list Exn
}.


(** The callback of [allLogs.filter]. *)
Definition keeps (sourceValue levelValue : string) (log : LogEntry) : Exn + bool :=
  match source (entry log) with
  | Str src =>
      let sourceMatch := includes (toLowerCase src) sourceValue in
      if String.eqb levelValue "" then inr (sourceMatch && true)
      else
        match level (entry log) with
        | Str lvl => inr (sourceMatch && String.eqb (toLowerCase lvl) levelValue)
        | Other _ _ => inl (TypeError "toLowerCase")
        end
  | Other _ _ => inl (TypeError "toLowerCase")
  end.

Fixpoint filter_logs (sourceValue levelValue : string) (l : list LogEntry)
    : Exn + list LogEntry :=
  match l with
  | [] => inr []
  | log :: rest =>
      match keeps sourceValue levelValue log with
      | inl e => inl e
      | inr b =>
          match filter_logs sourceValue levelValue rest with
          | inl e => inl e
          | inr kept => inr (if b then log :: kept else kept)
          end
      end
  end.

(** The callback of [filteredLogs.forEach], up to [appendChild]. *)
Definition element_of (log : LogEntry) : Exn + Element :=
  match level (entry log) with
  | Str lvl =>
      inr {| className := "log-entry " ++ toLowerCase lvl;
             innerHTML :=
               nl ++ spaces 28 ++ "<span class=" ++ q ++ "log-timestamp" ++ q ++ ">[" ++
                 text_of (timestamp (entry log)) ++ "]</span>" ++
               nl ++ spaces 28 ++ "[<span class=" ++ q ++ "log-source" ++ q ++ ">" ++
                 text_of (source (entry log)) ++ "</span>]" ++
               nl ++ spaces 28 ++ "[" ++ toUpperCase lvl ++ "]" ++
               nl ++ spaces 28 ++ "- " ++ text_of (message (entry log)) ++
               nl ++ spaces 24 |}
  | Other _ _ => inl (TypeError "toLowerCase")
  end.

Fixpoint append_all (l : list LogEntry) (container : list Element)
    : list Element * option Exn :=
  match l with
  | [] => (container, None)
  | log :: rest =>
      match element_of log with
      | inl e => (container, Some e)
      | inr el => append_all rest (container ++ [el])
      end
  end.

(** [renderLogs ()]: the container it leaves and what it throws. *)
Definition renderLogs (v : Viewer) : Viewer * option Exn :=
  let sourceValue := toLowerCase (sourceFilter v) in
  let levelValue := levelFilter v in
  match filter_logs sourceValue levelValue (allLogs v) with
  | inl e =>
      ({| allLogs := allLogs v; sourceFilter := sourceFilter v;
          levelFilter := levelFilter v; logContainer := [];
          reported := reported v |}, Some e)
  | inr filteredLogs =>
      let '(container, thrown) := append_all filteredLogs [] in
      ({| allLogs := allLogs v; sourceFilter := sourceFilter v;
          levelFilter := levelFilter v; logContainer := container;
          reported := reported v |}, thrown)
  end.

(** [fetchLogs ()], given the body of the response. *)
Definition fetchLogs (response : list LogEntry) (v : Viewer) : Viewer :=
  let '(v', thrown) :=
    renderLogs {| allLogs := response; sourceFilter := sourceFilter v;
                  levelFilter := levelFilter v; logContainer := logContainer v;
                  reported := reported v |} in
  match thrown with
  | Some e =>
      {| allLogs := allLogs v'; sourceFilter := sourceFilter v';
         levelFilter := levelFilter v'; logContainer := logContainer v';
         reported := (reported v' ++ [e])%list |}
  | None => v'
  end.

(** [filterLogs ()], called when a filter input changes: the inputs have
    their new values, and nothing catches what [renderLogs] throws. *)
Definition filterLogs (sourceInput levelInput : string) (v : Viewer)
    : Viewer * option Exn :=
  renderLogs {| allLogs := allLogs v; sourceFilter := sourceInput;
                levelFilter := levelInput; logContainer := logContainer v;
                reported := reported v |}.



End Strings.

(** Lower and upper case of the letters of ASCII, the other characters
    left as they are: what [toLowerCase] and [toUpperCase] do on strings of
    ASCII. *)
Definition lower_ascii (c : ascii) : ascii :=
  let n := nat_of_ascii c in
  if (65 <=? n)%nat && (n <=? 90)%nat then ascii_of_nat (n + 32) else c.

Definition upper_ascii (c : ascii) : ascii :=
  let n := nat_of_ascii c in
  if (97 <=? n)%nat && (n <=? 122)%nat then ascii_of_nat (n - 32) else c.

Fixpoint map_string (f : ascii -> ascii) (s : string) : string :=
  match s with
  | EmptyString => EmptyString
  | String a r => String (f a) (map_string f r)
  end.

(** Logs for the examples. *)
Definition body_of (src lvl msg : string) : LogBody :=
  {| source := Str src; level := Str lvl; message := Str msg;
     timestamp := Str "2025-08-10T00:00:00Z" |}.

Definition numeric_level : LogBody :=
  {| source := Str "worker"; level := Other true "3"; message := Str "started";
     timestamp := Str "2025-08-10T00:00:01Z" |}.

Definition lower (s : string) : string := map_string lower_ascii s.

Definition upper (s : string) : string := map_string upper_ascii s.

Definition ready : LogEntry :=
  {| entry := body_of "API" "INFO" "ready"; receivedAt := "2025-08-10T00:00:00.100Z" |}.

Definition slow : LogEntry :=
  {| entry := body_of "worker" "warn" "slow"; receivedAt := "2025-08-10T00:00:02.100Z" |}.

Definition poisoned : LogEntry :=
  {| entry := numeric_level; receivedAt := "2025-08-10T00:00:01.100Z" |}.

Definition viewing (l : list LogEntry) (sourceInput levelInput : string) : Viewer :=
  {| allLogs := l; sourceFilter := sourceInput; levelFilter := levelInput;
     logContainer := []; reported := [] |}.

End LogServer.

(** ** Properties of the chunk plan *)

Lemma Math_ceil_quotient (a b : Z) :
  0 < b -> JS.Math_ceil (inject_Z a / inject_Z b) = - ((- a) / b).
Proof.
  intros Hb. unfold JS.Math_ceil.
  destruct b as [|p|p]; try lia.
  assert (E : (inject_Z a / inject_Z (Z.pos p) == a # p)%Q).
  { unfold Qdiv, Qinv, Qmult, Qeq, inject_Z. simpl. lia. }
  rewrite E. unfold Qceiling, Qfloor, Qopp. simpl. reflexivity.
Qed.

Lemma totalChunks_bounds (f : File) :
  (totalChunks f - 1) * CHUNK_SIZE < size f <= totalChunks f * CHUNK_SIZE.
Proof.
  unfold totalChunks. rewrite Math_ceil_quotient by (unfold CHUNK_SIZE; lia).
  unfold CHUNK_SIZE. simpl (5 * 1024 * 1024).
  pose proof (Z.div_mod (- size f) 5242880 ltac:(lia)) as D.
  pose proof (Z.mod_pos_bound (- size f) 5242880 ltac:(lia)) as M.
  lia.
Qed.

Lemma for_chunks_length (f : File) (r : nat) (i : Z) :
  length (for_chunks f r i) = r.
Proof.
  revert i. induction r as [|r IH]; intros i; simpl; [reflexivity|].
  now rewrite IH.
Qed.

Lemma for_chunks_nth (f : File) (r : nat) (i : Z) (k : nat) :
  (k < r)%nat -> nth_error (for_chunks f r i) k = Some (chunk f (i + Z.of_nat k)).
Proof.
  revert i k. induction r as [|r IH]; intros i k Hk; [lia|].
  destruct k as [|k]; simpl.
  - now rewrite Z.add_0_r.
  - rewrite IH by lia. do 2 f_equal. lia.
Qed.

Lemma chunkPlan_length (f : File) :
  0 <= totalChunks f -> Z.of_nat (length (chunkPlan f)) = totalChunks f.
Proof.
  intros H. unfold chunkPlan. rewrite for_chunks_length. lia.
Qed.

Lemma chunkPlan_nth (f : File) (k : nat) (p : PartDescriptor) :
  nth_error (chunkPlan f) k = Some p ->
  Z.of_nat k < totalChunks f /\ p = chunk f (Z.of_nat k).
Proof.
  intros H.
  assert (Hk : (k < length (chunkPlan f))%nat).
  { apply nth_error_Some. congruence. }
  unfold chunkPlan in *. rewrite for_chunks_length in Hk.
  rewrite for_chunks_nth in H by exact Hk.
  split; [lia|]. simpl in H. congruence.
Qed.

Lemma chunkPlan_In (f : File) (p : PartDescriptor) :
  In p (chunkPlan f) <-> exists i, 0 <= i < totalChunks f /\ p = chunk f i.
Proof.
  split.
  - intros H. apply In_nth_error in H. destruct H as [k Hk].
    apply chunkPlan_nth in Hk. exists (Z.of_nat k). split; [lia|tauto].
  - intros [i [Hi ->]].
    apply nth_error_In with (n := Z.to_nat i).
    unfold chunkPlan. rewrite for_chunks_nth by lia.
    simpl. now rewrite Z2Nat.id by lia.
Qed.

(** Arithmetic of one part's range, [n] being the part count. *)
Lemma chunk_range (f : File) (i : Z) :
  0 <= i < totalChunks f ->
  start (chunk f i) = i * CHUNK_SIZE /\
  end_ (chunk f i) = Z.min ((i + 1) * CHUNK_SIZE) (size f) /\
  0 <= start (chunk f i) < end_ (chunk f i) /\
  end_ (chunk f i) <= size f /\
  (i + 1 < totalChunks f -> end_ (chunk f i) = (i + 1) * CHUNK_SIZE) /\
  (i + 1 = totalChunks f -> end_ (chunk f i) = size f).
Proof.
  intros Hi. pose proof (totalChunks_bounds f) as B.
  unfold chunk; simpl. unfold CHUNK_SIZE in *. simpl (5 * 1024 * 1024) in *.
  repeat split; try lia.
Qed.

(** C1. For an object of length [L >= 1] and the chunk size [C] of 5 MiB,
    the plan of [uploadFile] has exactly [ceil (L / C)] parts (the least [n]
    with [L <= n * C]); the part at index [k] has sequence number [k + 1]
    and the byte range from [k * C] to [min ((k + 1) * C, L)]; every range is
    non-empty and inside [0, L); consecutive ranges are contiguous; every
    byte of [0, L) lies in one part and in one only; and every part except
    the last has exactly [C] bytes. *)
Theorem chunk_plan_exact_cover (f : File) (HL : 1 <= size f) :
  let L := size f in
  let C := CHUNK_SIZE in
  let n := totalChunks f in
  ((n - 1) * C < L <= n * C) /\
  Z.of_nat (length (chunkPlan f)) = n /\
  (forall k p, nth_error (chunkPlan f) k = Some p ->
     partNumber p = Z.of_nat k + 1 /\
     start p = Z.of_nat k * C /\
     end_ p = Z.min ((Z.of_nat k + 1) * C) L) /\
  (forall p, In p (chunkPlan f) -> 0 <= start p < end_ p /\ end_ p <= L) /\
  (forall k p q, nth_error (chunkPlan f) k = Some p ->
     nth_error (chunkPlan f) (S k) = Some q -> end_ p = start q) /\
  (forall b, 0 <= b < L -> exists p, In p (chunkPlan f) /\ covers b p) /\
  (forall b p q, In p (chunkPlan f) -> In q (chunkPlan f) ->
     covers b p -> covers b q -> p = q) /\
  (forall k p, nth_error (chunkPlan f) k = Some p ->
     (S k < length (chunkPlan f))%nat -> end_ p - start p = C).
Proof.
  intros L C n. pose proof (totalChunks_bounds f) as B. fold L C n in B.
  assert (Hn : 1 <= n) by (unfold C, CHUNK_SIZE in B; lia).
  split; [exact B|].
  split; [apply chunkPlan_length; fold n; lia|].
  split.
  { intros k p Hp. apply chunkPlan_nth in Hp. destruct Hp as [Hk ->].
    destruct (chunk_range f (Z.of_nat k)) as (Hs & He & _); [lia|].
    split; [reflexivity|]. split; [exact Hs | exact He]. }
  split.
  { intros p Hp. apply chunkPlan_In in Hp. destruct Hp as [i [Hi ->]].
    destruct (chunk_range f i Hi) as (_ & _ & H1 & H2 & _). tauto. }
  split.
  { intros k p q Hp Hq.
    apply chunkPlan_nth in Hp. apply chunkPlan_nth in Hq.
    destruct Hp as [Hk ->]. destruct Hq as [Hk' ->].
    destruct (chunk_range f (Z.of_nat k)) as (_ & _ & _ & _ & He & _); [lia|].
    destruct (chunk_range f (Z.of_nat (S k))) as (Hs & _); [lia|].
    rewrite He, Hs by lia. lia. }
  split.
  { intros b Hb. exists (chunk f (b / CHUNK_SIZE)).
    assert (Hq : 0 <= b / CHUNK_SIZE < n).
    { unfold C, CHUNK_SIZE in *. simpl (5 * 1024 * 1024) in *.
      pose proof (Z.div_mod b 5242880 ltac:(lia)).
      pose proof (Z.mod_pos_bound b 5242880 ltac:(lia)). lia. }
    split; [apply chunkPlan_In; eauto|].
    unfold covers, chunk; simpl.
    unfold C, CHUNK_SIZE in *. simpl (5 * 1024 * 1024) in *.
    pose proof (Z.div_mod b 5242880 ltac:(lia)).
    pose proof (Z.mod_pos_bound b 5242880 ltac:(lia)). lia. }
  split.
  { intros b p q Hp Hq Cp Cq.
    apply chunkPlan_In in Hp. apply chunkPlan_In in Hq.
    destruct Hp as [i [Hi ->]]. destruct Hq as [j [Hj ->]].
    unfold covers, chunk in Cp, Cq; simpl in Cp, Cq.
    unfold CHUNK_SIZE in *. simpl (5 * 1024 * 1024) in *.
    assert (i = j) by lia. now subst. }
  { intros k p Hp Hlast. apply chunkPlan_nth in Hp. destruct Hp as [Hk ->].
    assert (Hlen : Z.of_nat (length (chunkPlan f)) = n)
      by (apply chunkPlan_length; fold n; lia).
    destruct (chunk_range f (Z.of_nat k)) as (Hs & _ & _ & _ & He & _); [lia|].
    rewrite He, Hs by lia. unfold C. lia. }
Qed.

Example chunkPlan_twelve_MiB :
  chunkPlan twelve_MiB =
  [ {| partNumber := 1; start := 0; end_ := 5242880 |};
    {| partNumber := 2; start := 5242880; end_ := 10485760 |};
    {| partNumber := 3; start := 10485760; end_ := 12582912 |} ].
Proof. vm_compute. reflexivity. Qed.

Lemma chunk_plan_exact_cover_witness :
  1 <= size twelve_MiB /\
  Z.of_nat (length (chunkPlan twelve_MiB)) = totalChunks twelve_MiB.
Proof.
  split; [vm_compute; discriminate|].
  apply (chunk_plan_exact_cover twelve_MiB). vm_compute; discriminate.
Defined.

(** ** Properties of the object validation *)

Lemma handleFile_file (f : File) (s : State) :
  file (handleFile f s) =
  if JS.startsWith (type f) "video/" && (size f <=? 2 * 1024 * 1024 * 1024)
  then Some f else None.
Proof.
  unfold handleFile.
  destruct (JS.startsWith (type f) "video/"); simpl; [|reflexivity].
  rewrite Z.gtb_ltb, Z.leb_antisym.
  now destruct (Z.ltb _ (size f)).
Qed.

Lemma handleFile_accepted (f g : File) (s : State) :
  file (handleFile f s) = Some g -> g = f /\ accepted f.
Proof.
  rewrite handleFile_file. unfold accepted.
  destruct (JS.startsWith (type f) "video/"); cbn [andb]; [|discriminate].
  destruct (Z.leb (size f) _) eqn:E; [|discriminate].
  intros H. injection H as <-. apply Z.leb_le in E. auto.
Qed.

(** C6. When the media type of the selected object does not start with
    [video/], or its size exceeds 2 GiB, [handleFile] sets the validation
    error at once (the type error first, else the size error), keeps no
    file, and sends no request; an upload asked for afterwards sends none
    either. *)
Theorem validation_rejects_before_any_request
    (f : File) (s : State) (sent : list Request) (w : World)
    (H : JS.startsWith (type f) "video/" = false \/
         size f > 2 * 1024 * 1024 * 1024) :
  let c := act (SelectFile f) (s, sent) in
  file (fst c) = None /\
  (JS.startsWith (type f) "video/" = false ->
     error (fst c) = Some "Invalid file type. Please select a video file.") /\
  (JS.startsWith (type f) "video/" = true ->
     error (fst c) = Some "File is too large. The maximum file size is 2GB.") /\
  snd c = sent /\
  snd (act (ClickUpload w) c) = sent.
Proof.
  simpl. unfold uploadFile.
  assert (F : file (handleFile f s) = None).
  { rewrite handleFile_file.
    destruct H as [-> | H]; [reflexivity|].
    replace (size f <=? 2 * 1024 * 1024 * 1024) with false
      by (symmetry; apply Z.leb_gt; lia).
    now rewrite andb_false_r. }
  rewrite F. simpl. rewrite app_nil_r.
  repeat split; try assumption.
  - intros E. unfold handleFile. rewrite E. reflexivity.
  - intros E. unfold handleFile. rewrite E. simpl.
    destruct H as [H | H]; [congruence|].
    assert (G : (size f >? 2147483648) = true) by (apply Z.gtb_lt; lia).
    rewrite G. reflexivity.
Qed.

Lemma validation_rejects_before_any_request_witness :
  error (handleFile three_GiB initial) =
  Some "File is too large. The maximum file size is 2GB.".
Proof.
  apply (validation_rejects_before_any_request three_GiB initial [] (backend [])).
  - right. vm_compute. reflexivity.
  - reflexivity.
Defined.

(** ** Properties of the completion callbacks *)

Lemma on_put_succeeds (n pn : Z) (w : World) (t : Transfer) :
  succeeds (put w pn) = true ->
  on_put n pn (put w pn) t =
  inr {| uploadedParts := uploadedParts t ++ [recorded w pn];
         ui := setProgress (PrimFloat.add (progress (ui t)) (increment n)) (ui t) |}.
Proof.
  unfold succeeds, on_put, recorded, JS.truthy, JS.or_else.
  destruct (ok (put w pn)); [|discriminate].
  destruct (ETag_header (put w pn)) as [e|]; [|discriminate].
  destruct (String.eqb e ""); [discriminate|reflexivity].
Qed.

Lemma on_put_fails (n pn : Z) (res : PutResponse) (t : Transfer) :
  succeeds res = false -> on_put n pn res t = inl (rejection pn res).
Proof.
  unfold succeeds, on_put, rejection, JS.truthy.
  destruct (ok res); [|reflexivity].
  destruct (ETag_header res) as [e|]; [|reflexivity].
  destruct (String.eqb e ""); [reflexivity|discriminate].
Qed.

Lemma settle_app (w : World) (n : Z) (l1 l2 : list Z) (t : Transfer) :
  settle w n (l1 ++ l2) t =
  (fst (settle w n l2 (fst (settle w n l1 t))),
   (snd (settle w n l1 t) ++ snd (settle w n l2 (fst (settle w n l1 t))))%list).
Proof.
  revert t. induction l1 as [|pn l1 IH]; intros t; simpl.
  - now destruct (settle w n l2 t).
  - destruct (on_put n pn (put w pn) t) as [e|t'].
    + rewrite IH. now destruct (settle w n l1 t).
    + apply IH.
Qed.

Lemma settle_split (w : World) (n : Z) (t : Transfer) (k : nat) :
  fst (settle w n (settled w) t) =
  fst (settle w n (skipn k (settled w)) (fst (settle w n (firstn k (settled w)) t))).
Proof.
  rewrite <- (firstn_skipn k (settled w)) at 1. now rewrite settle_app.
Qed.

Lemma settle_parts (w : World) (n : Z) (order : list Z) (t : Transfer) :
  uploadedParts (fst (settle w n order t)) =
  (uploadedParts t ++
   map (recorded w) (filter (fun pn => succeeds (put w pn)) order))%list.
Proof.
  revert t. induction order as [|pn order IH]; intros t; simpl.
  - now rewrite app_nil_r.
  - destruct (succeeds (put w pn)) eqn:E.
    + rewrite on_put_succeeds by exact E. rewrite IH. simpl.
      now rewrite <- app_assoc.
    + rewrite on_put_fails by exact E.
      specialize (IH t). now destruct (settle w n order t).
Qed.

Lemma settle_rejections (w : World) (n : Z) (order : list Z) (t : Transfer) :
  snd (settle w n order t) =
  map (fun pn => (pn, rejection pn (put w pn)))
    (filter (fun pn => negb (succeeds (put w pn))) order).
Proof.
  revert t. induction order as [|pn order IH]; intros t; simpl; [reflexivity|].
  destruct (succeeds (put w pn)) eqn:E; simpl.
  - rewrite on_put_succeeds by exact E. apply IH.
  - rewrite on_put_fails by exact E.
    specialize (IH t). destruct (settle w n order t). simpl in *. now rewrite IH.
Qed.

Lemma settle_ui (w : World) (n : Z) (order : list Z) (t : Transfer) :
  ui (fst (settle w n order t)) =
  setProgress
    (Nat.iter (List.length (filter (fun pn => succeeds (put w pn)) order))
       (fun p => PrimFloat.add p (increment n)) (progress (ui t)))
    (ui t).
Proof.
  revert t. induction order as [|pn order IH]; intros t; simpl.
  - now destruct (ui t).
  - destruct (succeeds (put w pn)) eqn:E.
    + rewrite on_put_succeeds by exact E. rewrite IH.
      cbn [List.length]. rewrite Nat.iter_succ_r. reflexivity.
    + rewrite on_put_fails by exact E.
      specialize (IH t). now destruct (settle w n order t).
Qed.

Lemma filter_all {A : Type} (p : A -> bool) (l : list A) :
  (forall x, In x l -> p x = true) -> filter p l = l.
Proof.
  induction l as [|a l IH]; intros H; simpl; [reflexivity|].
  rewrite (H a) by now left. f_equal. apply IH. intros x Hx. apply H. now right.
Qed.

(** ** Properties of the upload operation *)

Lemma uploadFile_started (w : World) (s : State) (f : File) (uploadId : string) :
  file s = Some f -> initialize w = Some uploadId -> uploadId <> "" ->
  let t0 := {| uploadedParts := [];
               ui := setProgress 0%float (setError None (setUploading true s)) |} in
  let n := totalChunks f in
  let t := fst (settle w n (settled w) t0) in
  let sent := Initialize (object_key w f) :: launched w f uploadId in
  uploadFile w s =
  match Promise_all (map partNumber (chunkPlan f))
          (snd (settle w n (firstn (early w) (settled w)) t0))
          (snd (settle w n (skipn (early w) (settled w))
                  (fst (settle w n (firstn (early w) (settled w)) t0)))) with
  | Some e => (catch_finally e (ui t), sent)
  | None =>
      if all_settled w (chunkPlan f) then
        let c := complete w (uploadedParts t) in
        let sent := (sent ++ [Complete (object_key w f) uploadId (uploadedParts t)])%list in
        if complete_ok c then
          (setUploading false
             (setProcessingStatus
                (Some "Upload complete. Waiting for processing to start...")
                (setTaskId (result_taskId c) (ui t))),
           sent)
        else
          (catch_finally
             (Error (JS.or_else (result_error c) "Failed to complete upload."))
             (ui t),
           sent)
      else (ui t, sent)
  end.
Proof.
  intros F I N. unfold uploadFile. rewrite F, I.
  apply String.eqb_neq in N. rewrite N. cbv zeta.
  rewrite (settle_split w _ _ (early w)).
  destruct (settle _ _ (firstn _ _) _) as [t1 r1]. cbn [fst snd].
  destruct (settle _ _ (skipn _ _) _) as [t2 r2]. reflexivity.
Qed.

(** The reason of [Promise.all] is that of a transfer that failed. *)
Lemma reason_of_In (pn : Z) (rejected : list (Z * Exn)) (e : Exn) :
  reason_of pn rejected = Some e -> In (pn, e) rejected.
Proof.
  induction rejected as [|[q x] r IH]; simpl; [discriminate|].
  destruct (q =? pn) eqn:E.
  - intros H. injection H as ->. apply Z.eqb_eq in E. subst. now left.
  - intros H. right. now apply IH.
Qed.

Lemma reason_of_None (pn : Z) (rejected : list (Z * Exn)) :
  reason_of pn rejected = None -> forall e, ~ In (pn, e) rejected.
Proof.
  induction rejected as [|[q x] r IH]; simpl; intros H e; [tauto|].
  destruct (q =? pn) eqn:E; [discriminate|].
  apply Z.eqb_neq in E. intros [K | K]; [congruence|]. now apply (IH H e).
Qed.

Lemma first_rejected_In (promises : list Z) (rejected : list (Z * Exn)) (e : Exn) :
  first_rejected promises rejected = Some e -> exists pn, In (pn, e) rejected.
Proof.
  induction promises as [|p ps IH]; simpl; [discriminate|].
  destruct (reason_of p rejected) as [x|] eqn:R.
  - intros H. injection H as ->. exists p. now apply reason_of_In.
  - exact IH.
Qed.

Lemma first_rejected_None (promises : list Z) (rejected : list (Z * Exn)) :
  first_rejected promises rejected = None ->
  forall pn e, In pn promises -> ~ In (pn, e) rejected.
Proof.
  induction promises as [|p ps IH]; simpl; intros H pn e Hin; [contradiction|].
  destruct (reason_of p rejected) as [x|] eqn:R; [discriminate|].
  destruct Hin as [-> | Hin]; [now apply reason_of_None | now apply IH].
Qed.

Lemma Promise_all_rejects (w : World) (n : Z) (promises : list Z) (t t' : Transfer) (pn : Z) :
  incl (settled w) promises ->
  In pn (settled w) -> succeeds (put w pn) = false ->
  exists q,
    In q (settled w) /\ succeeds (put w q) = false /\
    Promise_all promises
      (snd (settle w n (firstn (early w) (settled w)) t))
      (snd (settle w n (skipn (early w) (settled w)) t')) =
    Some (rejection q (put w q)).
Proof.
  intros I Hin Hf. rewrite !settle_rejections. unfold Promise_all.
  set (fails := fun pn => negb (succeeds (put w pn))).
  set (pair := fun pn => (pn, rejection pn (put w pn))).
  assert (S : forall l q e, incl l (settled w) ->
            In (q, e) (map pair (filter fails l)) ->
            In q (settled w) /\ succeeds (put w q) = false /\
            e = rejection q (put w q)).
  { intros l q e Hl H. apply in_map_iff in H. destruct H as [x [E H]].
    unfold pair in E. injection E as -> <-.
    apply filter_In in H. destruct H as [H1 H2].
    apply negb_true_iff in H2. auto. }
  assert (I1 : incl (firstn (early w) (settled w)) (settled w)).
  { intros x Hx. rewrite <- (firstn_skipn (early w) (settled w)).
    apply in_or_app. now left. }
  assert (I2 : incl (skipn (early w) (settled w)) (settled w)).
  { intros x Hx. rewrite <- (firstn_skipn (early w) (settled w)).
    apply in_or_app. now right. }
  destruct (first_rejected promises _) as [e|] eqn:R.
  - apply first_rejected_In in R. destruct R as [q R].
    destruct (S _ _ _ I1 R) as (A & B & ->). exists q. auto.
  - destruct (map pair (filter fails (skipn _ _))) as [|[q e] r] eqn:L.
    + exfalso.
      rewrite <- (firstn_skipn (early w) (settled w)) in Hin.
      apply in_app_or in Hin. destruct Hin as [Hin | Hin].
      * apply (first_rejected_None _ _ R pn (rejection pn (put w pn))).
        { apply I, I1, Hin. }
        apply (in_map pair), filter_In. split; [exact Hin|].
        unfold fails. now rewrite Hf.
      * assert (K : In (pair pn) (map pair (filter fails (skipn (early w) (settled w))))).
        { apply in_map, filter_In. split; [exact Hin|].
          unfold fails. now rewrite Hf. }
        rewrite L in K. contradiction.
    + assert (K : In (q, e) (map pair (filter fails (skipn (early w) (settled w)))))
        by (rewrite L; now left).
      destruct (S _ _ _ I2 K) as (A & B & ->). exists q. auto.
Qed.

Lemma Promise_all_fulfils (w : World) (n : Z) (promises : list Z) (t t' : Transfer) :
  (forall pn, In pn (settled w) -> succeeds (put w pn) = true) ->
  Promise_all promises
    (snd (settle w n (firstn (early w) (settled w)) t))
    (snd (settle w n (skipn (early w) (settled w)) t')) = None.
Proof.
  intros H. rewrite !settle_rejections.
  assert (E : forall l, incl l (settled w) ->
            filter (fun pn => negb (succeeds (put w pn))) l = []).
  { induction l as [|a l IH]; intros Hl; simpl; [reflexivity|].
    rewrite (H a) by (apply Hl; now left). simpl.
    apply IH. intros x Hx. apply Hl. now right. }
  rewrite !E.
  - unfold Promise_all. simpl.
    now induction promises as [|p ps IH]; simpl.
  - intros x Hx. rewrite <- (firstn_skipn (early w) (settled w)).
    apply in_or_app. now right.
  - intros x Hx. rewrite <- (firstn_skipn (early w) (settled w)).
    apply in_or_app. now left.
Qed.

Lemma launched_no_Complete (w : World) (f : File) (uploadId : string) (r : Request) :
  In r (Initialize (object_key w f) :: launched w f uploadId) ->
  is_Complete r = false.
Proof.
  intros [<- | H]; [reflexivity|].
  unfold launched in H. apply in_flat_map in H. destruct H as [p [_ H]].
  destruct H as [<- | [<- | []]]; reflexivity.
Qed.

(** C7. When the initialization response carries no [uploadId] (none, or
    an empty one), [uploadFile] ends with the error
    [Failed to initialize upload.], is no longer uploading, sets no task,
    and the initialization request is the only request it sent: it is not
    repeated, and no part target is asked for, no part transferred and no
    completion requested. *)
Theorem initialization_failure_is_fatal (w : World) (s : State) (f : File)
    (Hfile : file s = Some f)
    (Hinit : JS.truthy (initialize w) = false) :
  error (fst (uploadFile w s)) = Some "Failed to initialize upload." /\
  uploading (fst (uploadFile w s)) = false /\
  taskId (fst (uploadFile w s)) = taskId s /\
  snd (uploadFile w s) = [Initialize (object_key w f)].
Proof.
  unfold uploadFile. rewrite Hfile. unfold JS.truthy in Hinit.
  destruct (initialize w) as [id|].
  - destruct (String.eqb id ""); [|discriminate]. repeat split.
  - repeat split.
Qed.

Lemma initialization_failure_is_fatal_witness :
  snd (uploadFile backend_without_uploadId (handleFile twelve_MiB initial)) =
  [Initialize "1754784000000_clip.mp4"].
Proof.
  apply (initialization_failure_is_fatal backend_without_uploadId
           (handleFile twelve_MiB initial) twelve_MiB); reflexivity.
Defined.

(** C4. When the transfer of some part settles with a non-2xx response, or
    with a 2xx response without an [ETag], [uploadFile] ends with the error
    of a part that failed so: [Upload of part q failed.] for a non-2xx
    response and [ETag not found for part q.] otherwise (that of the given
    part when it is the only one to fail); it is no longer uploading, sets
    no task, and has sent the initialization and the requests of the loop
    only: no completion request. *)
Theorem failed_part_aborts_without_commit
    (w : World) (s : State) (f : File) (uploadId : string) (pn : Z)
    (Hfile : file s = Some f)
    (Hinit : initialize w = Some uploadId)
    (Hid : uploadId <> "")
    (Hlaunched : incl (settled w) (map partNumber (chunkPlan f)))
    (Hsettled : In pn (settled w))
    (Hfail : ok (put w pn) = false \/ JS.truthy (ETag_header (put w pn)) = false) :
  let r := uploadFile w s in
  let reason q :=
    if ok (put w q) then "ETag not found for part " ++ JS.show q ++ "."
    else "Upload of part " ++ JS.show q ++ " failed." in
  (exists q,
     In q (settled w) /\ succeeds (put w q) = false /\
     error (fst r) = Some (reason q)) /\
  ((forall q, In q (settled w) -> succeeds (put w q) = false -> q = pn) ->
     error (fst r) = Some (reason pn)) /\
  uploading (fst r) = false /\
  taskId (fst r) = taskId s /\
  snd r = Initialize (object_key w f) :: launched w f uploadId /\
  (forall key id parts, ~ In (Complete key id parts) (snd r)).
Proof.
  intros r reason.
  assert (Hf : succeeds (put w pn) = false).
  { unfold succeeds. destruct Hfail as [-> | ->]; [reflexivity|].
    now rewrite andb_false_r. }
  set (t0 := {| uploadedParts := [];
                ui := setProgress 0%float (setError None (setUploading true s)) |}).
  destruct (Promise_all_rejects w (totalChunks f) (map partNumber (chunkPlan f))
              t0 (fst (settle w (totalChunks f) (firstn (early w) (settled w)) t0))
              pn Hlaunched Hsettled Hf) as [q (Iq & Fq & P)].
  assert (R : r = (catch_finally (rejection q (put w q))
                     (ui (fst (settle w (totalChunks f) (settled w) t0))),
                   Initialize (object_key w f) :: launched w f uploadId)).
  { unfold r. rewrite (uploadFile_started w s f uploadId Hfile Hinit Hid).
    cbv zeta. fold t0. rewrite P. reflexivity. }
  assert (E : error (fst r) = Some (reason q)).
  { rewrite R. unfold reason, rejection. now destruct (ok (put w q)). }
  split; [exists q; auto|].
  split.
  { intros U. rewrite <- (U q Iq Fq). exact E. }
  rewrite R. cbn [fst snd]. rewrite settle_ui.
  repeat split.
  intros key id parts H. apply launched_no_Complete in H. discriminate.
Qed.

Lemma failed_part_aborts_without_commit_witness :
  error (fst (uploadFile backend_part2_without_ETag (handleFile twelve_MiB initial))) =
  Some "ETag not found for part 2.".
Proof.
  apply (failed_part_aborts_without_commit backend_part2_without_ETag
           (handleFile twelve_MiB initial) twelve_MiB "upload-1" 2).
  - reflexivity.
  - reflexivity.
  - discriminate.
  - intros q Hq. vm_compute. simpl in Hq. intuition.
  - simpl. auto.
  - right. reflexivity.
  - intros q [<- | [<- | [<- | []]]]; vm_compute; congruence.
Defined.

(** Two parts fail and both have settled before [Promise.all] is called:
    the reason is that of part 1, the first in the array, though part 2
    settled first. *)
Example two_failures_before_Promise_all :
  error (fst (uploadFile backend_parts_1_and_2_fail (handleFile twelve_MiB initial))) =
  Some "Upload of part 1 failed.".
Proof. vm_compute. reflexivity. Qed.

Lemma for_chunks_numbers_above (f : File) (r : nat) (i : Z) :
  Forall (fun x => i < x) (map partNumber (for_chunks f r i)).
Proof.
  revert i. induction r as [|r IH]; intros i; simpl; constructor.
  - lia.
  - eapply Forall_impl; [|apply IH]. simpl. intros; lia.
Qed.

Lemma for_chunks_numbers_sorted (f : File) (r : nat) (i : Z) :
  StronglySorted Z.lt (map partNumber (for_chunks f r i)).
Proof.
  revert i. induction r as [|r IH]; intros i; simpl; constructor.
  - apply IH.
  - eapply Forall_impl; [|apply for_chunks_numbers_above]. simpl. intros; lia.
Qed.

Lemma strictly_sorted_NoDup (l : list Z) : StronglySorted Z.lt l -> NoDup l.
Proof.
  induction 1 as [|a l S IH F]; constructor; [|exact IH].
  intros Hin. rewrite Forall_forall in F. specialize (F a Hin). lia.
Qed.

Lemma strictly_sorted_unique (l1 l2 : list Z) :
  StronglySorted Z.lt l1 -> StronglySorted Z.lt l2 -> Permutation l1 l2 -> l1 = l2.
Proof.
  intros S1. revert l2. induction S1 as [|a l1 S1 IH F1]; intros l2 S2 P.
  - apply Permutation_nil in P. now subst.
  - destruct S2 as [|b l2 S2 F2].
    + apply Permutation_sym, Permutation_nil in P. discriminate.
    + rewrite Forall_forall in F1, F2.
      assert (a = b).
      { assert (Ha : In a (b :: l2))
          by (apply Permutation_in with (l := a :: l1); [exact P | now left]).
        assert (Hb : In b (a :: l1))
          by (apply Permutation_in with (l := b :: l2);
              [now apply Permutation_sym | now left]).
        destruct Ha as [Ha | Ha]; [now subst|].
        destruct Hb as [Hb | Hb]; [now subst|].
        specialize (F1 b Hb). specialize (F2 a Ha). lia. }
      subst b. f_equal. apply IH; [exact S2|].
      now apply Permutation_cons_inv with (a := a).
Qed.

Lemma all_settled_of_permutation (w : World) (plan : list PartDescriptor) :
  Permutation (settled w) (map partNumber plan) -> all_settled w plan = true.
Proof.
  intros P. unfold all_settled. apply forallb_forall. intros p Hp.
  apply existsb_exists. exists (partNumber p). split; [|apply Z.eqb_refl].
  apply Permutation_in with (l := map partNumber plan);
    [now apply Permutation_sym | now apply in_map].
Qed.

Lemma map_PartNumber_recorded (w : World) (l : list Z) :
  map PartNumber (map (recorded w) l) = l.
Proof.
  induction l as [|a l IH]; simpl; [reflexivity|]. now rewrite IH.
Qed.

(** C2, amended. When every launched transfer settles, once and
    with success, [uploadFile] sends the initialization, the requests of the
    loop and then one completion request, whose [parts] hold exactly one
    entry per part of the plan, in the order in which the transfers
    settled; they are in the order of [PartNumber] exactly when the
    transfers settle in the order of the plan. *)
Theorem commit_lists_parts_in_completion_order
    (w : World) (s : State) (f : File) (uploadId : string)
    (Hfile : file s = Some f)
    (Hinit : initialize w = Some uploadId)
    (Hid : uploadId <> "")
    (Hall : Permutation (settled w) (map partNumber (chunkPlan f)))
    (Hok : forall pn, In pn (settled w) -> succeeds (put w pn) = true) :
  let parts := map (recorded w) (settled w) in
  snd (uploadFile w s) =
    (Initialize (object_key w f) :: launched w f uploadId ++
     [Complete (object_key w f) uploadId parts])%list /\
  map PartNumber parts = settled w /\
  Permutation (map PartNumber parts) (map partNumber (chunkPlan f)) /\
  NoDup (map PartNumber parts) /\
  (StronglySorted Z.lt (map PartNumber parts) <->
   settled w = map partNumber (chunkPlan f)).
Proof.
  intros parts. unfold parts. rewrite map_PartNumber_recorded.
  split.
  { rewrite (uploadFile_started w s f uploadId Hfile Hinit Hid). cbv zeta.
    rewrite (Promise_all_fulfils w _ _ _ _ Hok), settle_parts.
    rewrite (all_settled_of_permutation _ _ Hall).
    rewrite (filter_all _ _ Hok). cbn [uploadedParts app].
    now destruct (complete_ok _). }
  split; [reflexivity|].
  split; [exact Hall|].
  split.
  { apply Permutation_NoDup with (l := map partNumber (chunkPlan f));
      [now apply Permutation_sym|].
    apply strictly_sorted_NoDup, for_chunks_numbers_sorted. }
  split.
  - intros S. apply strictly_sorted_unique;
      [exact S | apply for_chunks_numbers_sorted | exact Hall].
  - intros ->. apply for_chunks_numbers_sorted.
Qed.

Lemma commit_lists_parts_in_completion_order_witness :
  snd (uploadFile (backend [3; 1; 2]) (handleFile twelve_MiB initial)) =
  (Initialize (object_key (backend [3; 1; 2]) twelve_MiB)
   :: launched (backend [3; 1; 2]) twelve_MiB "upload-1" ++
   [Complete (object_key (backend [3; 1; 2]) twelve_MiB) "upload-1"
      [ {| PartNumber := 3; ETag := "e3" |};
        {| PartNumber := 1; ETag := "e1" |};
        {| PartNumber := 2; ETag := "e2" |} ]])%list.
Proof.
  apply (commit_lists_parts_in_completion_order (backend [3; 1; 2])
           (handleFile twelve_MiB initial) twelve_MiB "upload-1").
  - reflexivity.
  - reflexivity.
  - discriminate.
  - change (Permutation [3; 1; 2] [1; 2; 3]).
    apply Permutation_sym, perm_trans with (l' := [1; 3; 2]).
    + apply perm_skip, perm_swap.
    + apply perm_swap.
  - intros pn _. reflexivity.
Defined.

(** C2 does not hold as stated: the two transfers of a two-part object
    succeed, the second settles first, and the completion request lists
    part 2 before part 1. *)
Lemma commit_order_counterexample :
  (forall pn, In pn (settled (backend [2; 1])) ->
     succeeds (put (backend [2; 1]) pn) = true) /\
  snd (uploadFile (backend [2; 1]) (handleFile two_parts initial)) =
    [ Initialize "1754784000000_clip.mp4";
      PartTarget "1754784000000_clip.mp4" "upload-1" 1;
      PutChunk "https://storage/part/1" 0 5242880;
      PartTarget "1754784000000_clip.mp4" "upload-1" 2;
      PutChunk "https://storage/part/2" 5242880 5242881;
      Complete "1754784000000_clip.mp4" "upload-1"
        [ {| PartNumber := 2; ETag := "e2" |};
          {| PartNumber := 1; ETag := "e1" |} ] ] /\
  ~ StronglySorted Z.le
      (map PartNumber [ {| PartNumber := 2; ETag := "e2" |};
                        {| PartNumber := 1; ETag := "e1" |} ]).
Proof.
  split; [intros pn _; reflexivity|].
  split; [vm_compute; reflexivity|].
  simpl. intros H. inversion H as [|a l _ F]; subst.
  inversion F as [|b l' Hle _]; subst. lia.
Qed.

(** ** The file the component holds *)

Lemma uploadFile_file (w : World) (s : State) :
  file (fst (uploadFile w s)) = file s.
Proof.
  unfold uploadFile. destruct (file s) as [f|] eqn:F; [|exact F].
  destruct (initialize w) as [id|]; [|exact F].
  destruct (String.eqb id ""); [exact F|].
  cbv zeta.
  destruct (settle _ _ (firstn _ _) _) as [t1 r1] eqn:S1.
  destruct (settle _ _ (skipn _ _) _) as [t r2] eqn:S2.
  assert (T : file (ui t) = Some f).
  { change t with (fst (t, r2)). rewrite <- S2, settle_ui.
    change t1 with (fst (t1, r1)). rewrite <- S1, settle_ui. exact F. }
  destruct (Promise_all _ _ _); [exact T|].
  destruct (all_settled _ _); [|exact T].
  destruct (complete_ok _); exact T.
Qed.

Lemma on_status_file (d : StatusData) (s s' : State) (c : bool) :
  on_status d s = inr (s', c) -> file s' = file s.
Proof.
  unfold on_status.
  destruct (String.eqb (state d) "PROGRESS").
  { destruct (info d); [|discriminate]. intros H; injection H as <- _. reflexivity. }
  destruct (String.eqb (state d) "SUCCESS").
  { intros H; injection H as <- _. reflexivity. }
  destruct (String.eqb (state d) "FAILURE").
  { destruct (info d); [|discriminate]. intros H; injection H as <- _. reflexivity. }
  intros H; injection H as <- _. reflexivity.
Qed.

(** Whatever the component has been through, the file it holds passed the
    check of [handleFile]. *)
Lemma Reachable_file_accepted (s : State) (f : File) :
  Reachable s -> file s = Some f -> accepted f.
Proof.
  intros R. revert f.
  induction R as [ | s b R IH | s g R IH | s fs R IH | s fs R IH | s w R IH
                 | s d s' c R IH H ]; intros f F.
  - discriminate.
  - apply IH. exact F.
  - apply handleFile_accepted in F. now destruct F as [-> A].
  - destruct fs as [|g fs]; simpl in F; [now apply IH|].
    apply handleFile_accepted in F. now destruct F as [-> A].
  - destruct fs as [|g fs]; simpl in F; [now apply IH|].
    apply handleFile_accepted in F. now destruct F as [-> A].
  - rewrite uploadFile_file in F. now apply IH.
  - rewrite (on_status_file _ _ _ _ H) in F. now apply IH.
Qed.

(** C8, amended. The object the component holds when
    [uploadFile] partitions it has a media type that starts with [video/]
    and a length of at most 2 GiB; the validation has no lower bound on the
    length, and an object of length 0 has a plan of no parts. *)
Theorem partitioned_object_passed_validation (s : State) (f : File)
    (Hreach : Reachable s)
    (Hfile : file s = Some f) :
  JS.startsWith (type f) "video/" = true /\
  size f <= 2 * 1024 * 1024 * 1024 /\
  (size f = 0 -> totalChunks f = 0 /\ chunkPlan f = []).
Proof.
  destruct (Reachable_file_accepted s f Hreach Hfile) as [T S].
  split; [exact T|]. split; [exact S|].
  intros Z. pose proof (totalChunks_bounds f) as B.
  assert (N : totalChunks f = 0) by (unfold CHUNK_SIZE in B; lia).
  split; [exact N|]. unfold chunkPlan. now rewrite N.
Qed.

Lemma partitioned_object_passed_validation_witness :
  size empty_video = 0 /\ chunkPlan empty_video = [].
Proof.
  split; [reflexivity|].
  apply (partitioned_object_passed_validation (handleFile empty_video initial)
           empty_video).
  - apply R_handleFile, R_initial.
  - reflexivity.
  - reflexivity.
Defined.

(** C8 does not hold as stated: the validation accepts an empty video,
    the component holds it, and [uploadFile] partitions it (into no parts)
    and goes on to request the completion of an upload without parts. *)
Lemma empty_object_counterexample :
  Reachable (handleFile empty_video initial) /\
  file (handleFile empty_video initial) = Some empty_video /\
  ~ 1 <= size empty_video /\
  totalChunks empty_video = 0 /\
  snd (uploadFile (backend []) (handleFile empty_video initial)) =
    [ Initialize "1754784000000_empty.mp4";
      Complete "1754784000000_empty.mp4" "upload-1" [] ].
Proof.
  split; [apply R_handleFile, R_initial|].
  split; [reflexivity|].
  split; [vm_compute; intros H; apply H; reflexivity|].
  split; vm_compute; reflexivity.
Qed.

(** ** Properties of the progress value *)


















(** The double sum overshoots 100: nine parts leave 100 + 2^-46. *)
Example progress_nine_parts :
  progress (fst (uploadFile (backend [1; 2; 3; 4; 5; 6; 7; 8; 9])
                   (handleFile nine_parts initial))) =
  0x1.9000000000001p+6%float.
Proof. vm_compute. reflexivity. Qed.

(** ** Properties of the poller *)

Example useEffect_uploaded : useEffect uploaded = Some polling.
Proof. reflexivity. Qed.

(** The scenario of the design: [Transcribing], then a completion status,
    and nothing is queried after the second observation. *)
Example transcribing_then_success :
  processingStatus
    (shown (run_poller "task-1" [Tick; Response transcribing] polling)) =
    Some "Transcribing" /\
  processingStatus
    (shown (run_poller "task-1"
              [Tick; Response transcribing; Tick; Response success] polling)) =
    Some "Processing complete!" /\
  queries (run_poller "task-1"
             [Tick; Response transcribing; Tick; Response success; Tick; Tick]
             polling) =
    [Status "task-1"; Status "task-1"].
Proof. repeat split. Qed.

Lemma stopped_sends_nothing (task : string) (es : list PollEvent) (p : Poller) :
  live p = false ->
  live (run_poller task es p) = false /\
  queries (run_poller task es p) = queries p.
Proof.
  revert p. induction es as [|e es IH]; intros p L; [auto|].
  unfold run_poller in *. cbn [fold_left].
  assert (H : live (poll task e p) = false /\ queries (poll task e p) = queries p).
  { destruct e as [|d|]; simpl.
    - rewrite L. auto.
    - destruct (on_status d (shown p)) as [x|[s c]]; simpl; rewrite ?L; auto.
    - auto. }
  destruct H as [H1 H2]. destruct (IH _ H1) as [I1 I2].
  split; [exact I1|]. now rewrite I2.
Qed.

(** The part of the terminal property that the code has: after [SUCCESS],
    or after a [FAILURE] that carries an [info] object, the status is set,
    the interval is cleared, and whatever happens next sends no query. *)
Lemma terminal_observation_stops (task : string) (d : StatusData) (p : Poller)
    (es : list PollEvent) :
  state d = "SUCCESS" \/ (state d = "FAILURE" /\ info d <> None) ->
  let p' := poll task (Response d) p in
  processingStatus (shown p') =
    Some (if String.eqb (state d) "SUCCESS" then "Processing complete!"
          else "Processing failed: " ++
               JS.or_else (match info d with Some i => status i | None => None end)
                 "Unknown error") /\
  live p' = false /\
  queries (run_poller task es p') = queries p.
Proof.
  intros H p'.
  assert (P : processingStatus (shown p') =
              Some (if String.eqb (state d) "SUCCESS" then "Processing complete!"
                    else "Processing failed: " ++
                         JS.or_else (match info d with Some i => status i | None => None end)
                           "Unknown error") /\
              live p' = false /\ queries p' = queries p).
  { unfold p', poll, on_status.
    destruct H as [-> | [-> I]]; simpl.
    - rewrite andb_false_r. auto.
    - destruct (info d) as [i|]; [|contradiction]. simpl.
      rewrite andb_false_r. auto. }
  destruct P as (P1 & P2 & P3). split; [exact P1|]. split; [exact P2|].
  destruct (stopped_sends_nothing task es p' P2) as [_ Q]. now rewrite Q.
Qed.

(** C5 fails on a [FAILURE] response without an [info] object: the callback
    throws before it sets a status or clears the interval, so nothing is
    surfaced (neither a detail nor the fallback), the interval stays
    scheduled, and the next tick sends another status query. *)
Lemma failure_without_info_keeps_polling :
  let p := run_poller "task-1" [Tick; Response failure_without_info] polling in
  on_status failure_without_info uploaded = inl (TypeError "status") /\
  processingStatus (shown p) =
    Some "Upload complete. Waiting for processing to start..." /\
  unhandled p = [TypeError "status"] /\
  live p = true /\
  queries p = [Status "task-1"] /\
  queries (poll "task-1" Tick p) = [Status "task-1"; Status "task-1"].
Proof. repeat split. Qed.

(** C9, amended. A [PROGRESS] observation that carries an [info]
    object sets the shown status to its detail, or to [Processing...] when
    the detail is absent or empty, and leaves the interval as it is; an
    observation in a state other than [PROGRESS], [SUCCESS] and [FAILURE],
    such as [QUEUED], changes nothing. *)
Theorem progress_observation_is_surfaced (task : string) (d : StatusData) (p : Poller) :
  (state d = "PROGRESS" -> forall i, info d = Some i ->
     processingStatus (shown (poll task (Response d) p)) =
       Some (JS.or_else (status i) "Processing...") /\
     live (poll task (Response d) p) = live p /\
     unhandled (poll task (Response d) p) = unhandled p) /\
  (state d <> "PROGRESS" -> state d <> "SUCCESS" -> state d <> "FAILURE" ->
     poll task (Response d) p = p).
Proof.
  split.
  - intros S i I. unfold poll, on_status. rewrite S, I. simpl.
    rewrite andb_true_r. auto.
  - intros N1 N2 N3. unfold poll, on_status.
    apply String.eqb_neq in N1, N2, N3. rewrite N1, N2, N3.
    rewrite andb_true_r. now destruct p.
Qed.

Lemma progress_observation_is_surfaced_witness :
  processingStatus (shown (poll "task-1" (Response transcribing) polling)) =
    Some "Transcribing" /\
  poll "task-1" (Response queued) polling = polling.
Proof.
  split.
  - apply (proj1 (progress_observation_is_surfaced "task-1" transcribing polling)
             eq_refl {| status := Some "Transcribing" |} eq_refl).
  - apply (progress_observation_is_surfaced "task-1" queued polling);
      discriminate.
Defined.

(** C9 does not hold as stated: a [QUEUED] observation carries a detail
    and the status shown stays the one set when the upload completed. *)
Lemma queued_detail_counterexample :
  info queued = Some {| status := Some "Waiting for a worker" |} /\
  processingStatus (shown (poll "task-1" (Response queued) polling)) =
    Some "Upload complete. Waiting for processing to start..." /\
  processingStatus (shown (poll "task-1" (Response queued) polling)) <>
    Some "Waiting for a worker".
Proof. repeat split. discriminate. Qed.

(** C10. For a status response whose state is [PROGRESS] or [FAILURE]: when
    it has no [info] object, the callback throws the [TypeError] of reading
    [status], so the poller sets no status (no fallback either), leaves the
    interval as it is and records an unhandled rejection; when the [info]
    object is there and its [status] is absent or empty, the fallback is
    used: [Processing...], or [Processing failed: Unknown error]. *)
Theorem absent_info_throws (task : string) (d : StatusData) (p : Poller)
    (Hstate : state d = "PROGRESS" \/ state d = "FAILURE") :
  (info d = None ->
     on_status d (shown p) = inl (TypeError "status") /\
     poll task (Response d) p =
       {| shown := shown p; live := live p; queries := queries p;
          unhandled := unhandled p ++ [TypeError "status"] |}) /\
  (forall i, info d = Some i -> JS.truthy (status i) = false ->
     on_status d (shown p) =
       inr (setProcessingStatus
              (Some (if String.eqb (state d) "PROGRESS" then "Processing..."
                     else "Processing failed: Unknown error"))
              (shown p),
            negb (String.eqb (state d) "PROGRESS"))).
Proof.
  split.
  - intros I. unfold poll, on_status. rewrite I.
    destruct Hstate as [-> | ->]; simpl; auto.
  - intros i I T. unfold on_status. rewrite I.
    assert (F : forall x, JS.or_else (status i) x = x).
    { intros x. unfold JS.truthy, JS.or_else in *.
      destruct (status i) as [t|]; [|reflexivity].
      apply negb_false_iff in T. now rewrite T. }
    rewrite !F. destruct Hstate as [-> | ->]; reflexivity.
Qed.

Lemma absent_info_throws_witness :
  on_status failure_without_info (shown polling) = inl (TypeError "status").
Proof.
  apply (absent_info_throws "task-1" failure_without_info polling).
  - right. reflexivity.
  - reflexivity.
Defined.

(** ** Further properties of the component *)

(** X1. [handleFile] keeps the selected file exactly when its type starts
    with [video/] and its size is at most 2 GiB (2 GiB itself included). An
    accepted file clears the error, the progress, the task and the
    processing status, so that no polling effect runs for the new state; a
    rejected one sets an error and leaves the progress, the task and the
    processing status of the previous upload as they were. Neither changes
    [uploading] or [isDragOver]. *)
Theorem handleFile_outcomes (f : File) (s : State) :
  (file (handleFile f s) = Some f <-> accepted f) /\
  (accepted f ->
     error (handleFile f s) = None /\
     progress (handleFile f s) = 0%float /\
     taskId (handleFile f s) = None /\
     processingStatus (handleFile f s) = None /\
     useEffect (handleFile f s) = None) /\
  (~ accepted f ->
     file (handleFile f s) = None /\
     JS.truthy (error (handleFile f s)) = true /\
     progress (handleFile f s) = progress s /\
     taskId (handleFile f s) = taskId s /\
     processingStatus (handleFile f s) = processingStatus s) /\
  uploading (handleFile f s) = uploading s /\
  isDragOver (handleFile f s) = isDragOver s.
Proof.
  unfold accepted, handleFile, useEffect.
  destruct (JS.startsWith (type f) "video/") eqn:T; cbn [negb].
  - destruct (Z.gtb (size f) _) eqn:G.
    + apply Z.gtb_lt in G.
      split; [split; [discriminate | intros [_ H]; lia]|].
      split; [intros [_ H]; lia|].
      split; [intros _; repeat split|]. split; reflexivity.
    + assert (L : size f <= 2 * 1024 * 1024 * 1024).
      { rewrite Z.gtb_ltb in G. apply Z.ltb_ge in G. exact G. }
      split; [split; [auto | reflexivity]|].
      split; [intros _; repeat split|].
      split; [intros N; exfalso; apply N; auto|]. split; reflexivity.
  - split; [split; [discriminate | intros [H _]; discriminate]|].
    split; [intros [H _]; discriminate|].
    split; [intros _; repeat split|]. split; reflexivity.
Qed.

Lemma handleFile_outcomes_witness :
  file (handleFile two_GiB uploaded) = Some two_GiB /\
  taskId (handleFile two_GiB_and_a_byte uploaded) = taskId uploaded.
Proof.
  split.
  - apply (proj1 (handleFile_outcomes two_GiB uploaded)).
    split; [reflexivity | vm_compute; discriminate].
  - apply (proj1 (proj2 (proj2 (handleFile_outcomes two_GiB_and_a_byte uploaded)))).
    intros [_ H]. vm_compute in H. apply H. reflexivity.
Defined.

(** X2. A drop is a drag-leave followed by a change of the file input, and
    both handle the first file of the list only: the files after it are
    ignored, and an empty list selects nothing. The file they leave in the
    state is the one that was there (empty list), the first of the list
    (accepted), or none (rejected). *)
Theorem drop_takes_the_first_file (files : list File) (s : State) :
  handleDrop files s = handleFileChange files (handleDragLeave s) /\
  handleFileChange files s = handleFileChange (firstn 1 files) s /\
  isDragOver (handleDrop files s) = false /\
  match files with
  | [] => handleFileChange files s = s
  | f :: _ =>
      file (handleFileChange files s) = (if JS.startsWith (type f) "video/" &&
                                            (size f <=? 2 * 1024 * 1024 * 1024)
                                         then Some f else None)
  end.
Proof.
  destruct files as [|f rest]; cbn [handleDrop handleFileChange firstn].
  - repeat split.
  - split; [reflexivity|]. split; [reflexivity|].
    split; [|apply handleFile_file].
    unfold handleFile.
    destruct (negb _); [reflexivity|]. now destruct (Z.gtb _ _).
Qed.

Lemma all_settled_true (w : World) (plan : list PartDescriptor) :
  all_settled w plan = true <->
  forall p, In p plan -> In (partNumber p) (settled w).
Proof.
  unfold all_settled. rewrite forallb_forall. split; intros H p Hp.
  - specialize (H p Hp). apply existsb_exists in H.
    destruct H as [x [Hx E]]. apply Z.eqb_eq in E. now subst.
  - apply existsb_exists. exists (partNumber p). split; [auto | apply Z.eqb_refl].
Qed.

Lemma all_settled_false (w : World) (plan : list PartDescriptor) :
  all_settled w plan = false <->
  exists p, In p plan /\ ~ In (partNumber p) (settled w).
Proof.
  split.
  - unfold all_settled. induction plan as [|a plan IH]; simpl; [discriminate|].
    intros H. apply andb_false_iff in H. destruct H as [H | H].
    + exists a. split; [now left|]. intros Hin.
      assert (E : existsb (Z.eqb (partNumber a)) (settled w) = true)
        by (apply existsb_exists; exists (partNumber a); split;
            [exact Hin | apply Z.eqb_refl]).
      congruence.
    + destruct (IH H) as [p [Hp N]]. exists p. split; [now right | exact N].
  - intros [p [Hp N]]. destruct (all_settled w plan) eqn:E; [|reflexivity].
    exfalso. apply N. now apply (proj1 (all_settled_true w plan) E).
Qed.

Lemma Promise_all_None (w : World) (n : Z) (promises : list Z) (t t' : Transfer) :
  Promise_all promises
    (snd (settle w n (firstn (early w) (settled w)) t))
    (snd (settle w n (skipn (early w) (settled w)) t')) = None ->
  forall pn, In pn promises -> In pn (settled w) -> succeeds (put w pn) = true.
Proof.
  rewrite !settle_rejections. unfold Promise_all. intros H pn Hp Hs.
  destruct (succeeds (put w pn)) eqn:E; [reflexivity|]. exfalso.
  destruct (first_rejected promises _) as [e|] eqn:R; [discriminate|].
  rewrite <- (firstn_skipn (early w) (settled w)) in Hs.
  apply in_app_or in Hs. destruct Hs as [Hs | Hs].
  - apply (first_rejected_None _ _ R pn (rejection pn (put w pn)) Hp).
    apply (in_map (fun pn => (pn, rejection pn (put w pn)))), filter_In.
    split; [exact Hs | now rewrite E].
  - set (ra := map (fun pn => (pn, rejection pn (put w pn)))
                 (filter (fun pn => negb (succeeds (put w pn)))
                    (skipn (early w) (settled w)))) in *.
    assert (K : In (pn, rejection pn (put w pn)) ra).
    { apply (in_map (fun pn => (pn, rejection pn (put w pn)))), filter_In.
      split; [exact Hs | now rewrite E]. }
    destruct ra as [|[q x] r]; [contradiction | discriminate].
Qed.

Lemma Promise_all_Some (w : World) (n : Z) (promises : list Z) (t t' : Transfer) (e : Exn) :
  Promise_all promises
    (snd (settle w n (firstn (early w) (settled w)) t))
    (snd (settle w n (skipn (early w) (settled w)) t')) = Some e ->
  exists q, In q (settled w) /\ succeeds (put w q) = false /\
            e = rejection q (put w q).
Proof.
  rewrite !settle_rejections. unfold Promise_all. intros H.
  assert (S : forall l q x,
            In (q, x) (map (fun pn => (pn, rejection pn (put w pn)))
                         (filter (fun pn => negb (succeeds (put w pn))) l)) ->
            In q l /\ succeeds (put w q) = false /\ x = rejection q (put w q)).
  { intros l q x K. apply in_map_iff in K. destruct K as [y [E K]].
    injection E as -> <-. apply filter_In in K. destruct K as [K1 K2].
    apply negb_true_iff in K2. auto. }
  destruct (first_rejected promises _) as [x|] eqn:R.
  - injection H as ->. apply first_rejected_In in R. destruct R as [q R].
    destruct (S _ _ _ R) as (A & B & C). exists q.
    split; [|auto]. rewrite <- (firstn_skipn (early w) (settled w)).
    apply in_or_app. now left.
  - set (ra := map (fun pn => (pn, rejection pn (put w pn)))
                 (filter (fun pn => negb (succeeds (put w pn)))
                    (skipn (early w) (settled w)))) in *.
    assert (K : forall q x, In (q, x) ra ->
                In q (skipn (early w) (settled w)) /\ succeeds (put w q) = false /\
                x = rejection q (put w q)) by (intros q x; apply S).
    destruct ra as [|[q x] r]; [discriminate|]. injection H as ->.
    destruct (K q e (or_introl eq_refl)) as (A & B & C). exists q.
    split; [|auto]. rewrite <- (firstn_skipn (early w) (settled w)).
    apply in_or_app. now right.
Qed.

Lemma uploadFile_outcome (w : World) (s : State) (f : File) (uploadId : string) :
  file s = Some f -> initialize w = Some uploadId -> uploadId <> "" ->
  Outcome w s f uploadId.
Proof.
  intros F I N. pose proof (uploadFile_started w s f uploadId F I N) as U.
  cbv zeta in U.
  destruct (Promise_all _ _ _) as [e|] eqn:P.
  - eapply Rejected; [exact U | reflexivity |].
    now apply Promise_all_Some in P.
  - pose proof (Promise_all_None _ _ _ _ _ P) as S.
    destruct (all_settled w (chunkPlan f)) eqn:A.
    + eapply Completed; [|reflexivity|].
      * rewrite U. now destruct (complete_ok _).
      * intros p Hp. pose proof (proj1 (all_settled_true _ _) A p Hp) as Hs.
        split; [exact Hs|]. apply S; [now apply in_map | exact Hs].
    + eapply Pending; [exact U | reflexivity | |].
      * intros p Hp Hs. apply S; [now apply in_map | exact Hs].
      * now apply all_settled_false.
Qed.

Lemma uploadFile_without_uploadId (w : World) (s : State) (f : File) :
  file s = Some f -> JS.truthy (initialize w) = false ->
  uploadFile w s =
  (catch_finally (Error "Failed to initialize upload.")
     (setProgress 0%float (setError None (setUploading true s))),
   [Initialize (object_key w f)]).
Proof.
  intros F T. unfold uploadFile. rewrite F. unfold JS.truthy in T.
  destruct (initialize w) as [id|]; [|reflexivity].
  destruct (String.eqb id ""); [reflexivity | discriminate].
Qed.


Lemma or_else_truthy (v : option string) (d : string) :
  d <> "" -> JS.truthy (Some (JS.or_else v d)) = true.
Proof.
  intros D. apply String.eqb_neq in D. unfold JS.truthy, JS.or_else.
  destruct v as [x|]; [|now rewrite D].
  destruct (String.eqb x "") eqn:E; now rewrite ?D, ?E.
Qed.

Lemma or_else_of_truthy (m d : string) :
  m <> "" -> JS.or_else (Some m) d = m.
Proof.
  intros M. apply String.eqb_neq in M. unfold JS.or_else. now rewrite M.
Qed.

Lemma or_else_nonempty (v : option string) (d : string) :
  d <> "" -> JS.or_else v d <> "".
Proof.
  intros D. pose proof (or_else_truthy v d D) as T. unfold JS.truthy in T.
  apply negb_true_iff in T. now apply String.eqb_neq.
Qed.

Lemma Complete_sent (w : World) (s : State) (key id : string) (parts : list Part) :
  In (Complete key id parts) (snd (uploadFile w s)) ->
  exists f, file s = Some f /\ key = object_key w f /\ initialize w = Some id /\
    id <> "" /\
    parts = map (recorded w) (filter (fun pn => succeeds (put w pn)) (settled w)) /\
    (forall p, In p (chunkPlan f) ->
       In (partNumber p) (settled w) /\ succeeds (put w (partNumber p)) = true) /\
    snd (uploadFile w s) =
      (Initialize (object_key w f) :: launched w f id ++ [Complete key id parts])%list.
Proof.
  intros H. destruct (file s) as [f|] eqn:F.
  2:{ unfold uploadFile in H. rewrite F in H. contradiction. }
  exists f. split; [reflexivity|].
  destruct (JS.truthy (initialize w)) eqn:T.
  2:{ rewrite (uploadFile_without_uploadId w s f F T) in H.
      destruct H as [H | []]. discriminate. }
  unfold JS.truthy in T. destruct (initialize w) as [u|] eqn:I; [|discriminate].
  apply negb_true_iff, String.eqb_neq in T.
  destruct (uploadFile_outcome w s f u F I T) as [e t U _ _ | t U _ _ _ | t U Et A];
    rewrite U in H |- *; cbn [snd] in H |- *.
  - apply launched_no_Complete in H. discriminate.
  - apply launched_no_Complete in H. discriminate.
  - change (In (Complete key id parts)
              ((Initialize (object_key w f) :: launched w f u) ++
               [Complete (object_key w f) u (uploadedParts t)])) in H.
    apply in_app_or in H. destruct H as [H | [H | []]].
    + apply launched_no_Complete in H. discriminate.
    + injection H as <- <- <-.
      split; [reflexivity|]. split; [reflexivity|]. split; [exact T|].
      split; [rewrite Et, settle_parts; reflexivity|].
      split; [exact A | reflexivity].
Qed.

(** X4. A completion request is sent only when every part of the plan has
    settled with success: it then carries the object key of the run and the
    [uploadId] of the initialization, and its [parts] are the entries of the
    successful transfers in the order in which they settled, among them one
    for each part of the plan. *)
Theorem commit_needs_every_token
    (w : World) (s : State) (f : File) (key id : string) (parts : list Part)
    (Hfile : file s = Some f)
    (Hsent : In (Complete key id parts) (snd (uploadFile w s))) :
  key = object_key w f /\
  initialize w = Some id /\
  parts = map (recorded w) (filter (fun pn => succeeds (put w pn)) (settled w)) /\
  (forall p, In p (chunkPlan f) ->
     In (partNumber p) (settled w) /\
     succeeds (put w (partNumber p)) = true /\
     In (recorded w (partNumber p)) parts).
Proof.
  destruct (Complete_sent w s key id parts Hsent) as (g & G & K & I & _ & P & A & _).
  assert (g = f) by congruence. subst g.
  repeat split; try assumption; try (now apply A).
  rewrite P. apply in_map, filter_In. split; now apply A.
Qed.

Lemma commit_needs_every_token_witness :
  In {| PartNumber := 2; ETag := "e2" |}
     [ {| PartNumber := 3; ETag := "e3" |};
       {| PartNumber := 1; ETag := "e1" |};
       {| PartNumber := 2; ETag := "e2" |} ].
Proof.
  apply (commit_needs_every_token (backend [3; 1; 2])
           (handleFile twelve_MiB initial) twelve_MiB
           "1754784000000_clip.mp4" "upload-1" _ eq_refl)
    with (p := {| partNumber := 2; start := 5242880; end_ := 10485760 |}).
  - vm_compute. do 7 right. left. reflexivity.
  - vm_compute. right. left. reflexivity.
Defined.

Lemma uploadFile_completed (w : World) (s : State) (f : File) (uploadId : string) :
  file s = Some f -> initialize w = Some uploadId -> uploadId <> "" ->
  (forall p, In p (chunkPlan f) -> In (partNumber p) (settled w)) ->
  (forall pn, In pn (settled w) -> succeeds (put w pn) = true) ->
  let c := complete w (map (recorded w) (settled w)) in
  let s1 := setProgress (progress_of (totalChunks f) (List.length (settled w)))
              (setError None (setUploading true s)) in
  uploadFile w s =
  ((if complete_ok c then
      setUploading false
        (setProcessingStatus
           (Some "Upload complete. Waiting for processing to start...")
           (setTaskId (result_taskId c) s1))
    else
      catch_finally
        (Error (JS.or_else (result_error c) "Failed to complete upload.")) s1),
   (Initialize (object_key w f) :: launched w f uploadId ++
    [Complete (object_key w f) uploadId (map (recorded w) (settled w))])%list).
Proof.
  intros F I N Hall Hok c s1.
  destruct (uploadFile_outcome w s f uploadId F I N)
    as [e t U _ [q (Q1 & Q2 & _)] | t U _ _ [p (P1 & P2)] | t U Et _].
  - rewrite (Hok q Q1) in Q2. discriminate.
  - exfalso. apply P2, Hall, P1.
  - assert (Ep : uploadedParts t = map (recorded w) (settled w)).
    { rewrite Et, settle_parts, (filter_all _ _ Hok). reflexivity. }
    assert (Eu : ui t = s1).
    { rewrite Et, settle_ui, (filter_all _ _ Hok). reflexivity. }
    rewrite U, Ep, Eu. reflexivity.
Qed.

(** X5. When every part of the plan has been transferred with success and
    the completion call answers with a failure, [uploadFile] ends with the
    error text of the answer, or with [Failed to complete upload.] when the
    answer has none (or an empty one); it is no longer uploading, and the
    task and the processing status are those of before the upload: no new
    task is polled. *)
Theorem commit_failure_is_surfaced
    (w : World) (s : State) (f : File) (uploadId : string)
    (Hfile : file s = Some f)
    (Hinit : initialize w = Some uploadId)
    (Hid : uploadId <> "")
    (Hall : forall p, In p (chunkPlan f) -> In (partNumber p) (settled w))
    (Hok : forall pn, In pn (settled w) -> succeeds (put w pn) = true)
    (Hrefused : complete_ok (complete w (map (recorded w) (settled w))) = false) :
  let r := uploadFile w s in
  let answer := complete w (map (recorded w) (settled w)) in
  error (fst r) =
    Some (match result_error answer with
          | Some text => if String.eqb text "" then "Failed to complete upload." else text
          | None => "Failed to complete upload."
          end) /\
  uploading (fst r) = false /\
  taskId (fst r) = taskId s /\
  processingStatus (fst r) = processingStatus s /\
  exists sent, snd r = (sent ++ [Complete (object_key w f) uploadId
                                   (map (recorded w) (settled w))])%list.
Proof.
  intros r answer. unfold r.
  rewrite (uploadFile_completed w s f uploadId Hfile Hinit Hid Hall Hok).
  cbv zeta. rewrite Hrefused. cbn [fst snd].
  split.
  { unfold catch_finally, message_of. cbn [error setUploading setError].
    rewrite or_else_of_truthy by (apply or_else_nonempty; discriminate).
    reflexivity. }
  repeat split.
  exists (Initialize (object_key w f) :: launched w f uploadId). reflexivity.
Qed.

Lemma commit_failure_is_surfaced_witness :
  error (fst (uploadFile (backend_refusing (Some "NoSuchUpload"))
                (handleFile twelve_MiB initial))) = Some "NoSuchUpload" /\
  error (fst (uploadFile (backend_refusing None)
                (handleFile twelve_MiB initial))) = Some "Failed to complete upload.".
Proof.
  split.
  - apply (commit_failure_is_surfaced (backend_refusing (Some "NoSuchUpload"))
             (handleFile twelve_MiB initial) twelve_MiB "upload-1");
      try reflexivity; try discriminate.
    intros p Hp. vm_compute in Hp. vm_compute.
    destruct Hp as [<- | [<- | [<- | []]]]; auto.
  - apply (commit_failure_is_surfaced (backend_refusing None)
             (handleFile twelve_MiB initial) twelve_MiB "upload-1");
      try reflexivity; try discriminate.
    intros p Hp. vm_compute in Hp. vm_compute.
    destruct Hp as [<- | [<- | [<- | []]]]; auto.
Defined.

(** X6. When every part of the plan has been transferred with success and
    the completion call answers with success, [uploadFile] ends without an
    error, no longer uploading, with the task of the answer and the status
    [Upload complete. Waiting for processing to start...], which is
    rendered. The polling effect starts exactly when the answer carries a
    non-empty [taskId]: without one the status stays as it is, since
    nothing polls. *)
Theorem commit_success_starts_polling
    (w : World) (s : State) (f : File) (uploadId : string)
    (Hfile : file s = Some f)
    (Hinit : initialize w = Some uploadId)
    (Hid : uploadId <> "")
    (Hall : forall p, In p (chunkPlan f) -> In (partNumber p) (settled w))
    (Hok : forall pn, In pn (settled w) -> succeeds (put w pn) = true)
    (Haccepted : complete_ok (complete w (map (recorded w) (settled w))) = true) :
  let r := uploadFile w s in
  let answer := complete w (map (recorded w) (settled w)) in
  error (fst r) = None /\
  uploading (fst r) = false /\
  taskId (fst r) = result_taskId answer /\
  processingStatus (fst r) =
    Some "Upload complete. Waiting for processing to start..." /\
  renders_processing_status (fst r) = true /\
  (JS.truthy (result_taskId answer) = true ->
     useEffect (fst r) =
     Some {| shown := fst r; live := true; queries := []; unhandled := [] |}) /\
  (JS.truthy (result_taskId answer) = false -> useEffect (fst r) = None).
Proof.
  intros r answer. unfold r.
  rewrite (uploadFile_completed w s f uploadId Hfile Hinit Hid Hall Hok).
  cbv zeta. rewrite Haccepted. cbn [fst].
  split; [reflexivity|]. split; [reflexivity|]. split; [reflexivity|].
  split; [reflexivity|].
  split.
  { unfold renders_processing_status, renders_selection.
    cbn [file error processingStatus setUploading setProcessingStatus setTaskId
         setProgress setError].
    now rewrite Hfile. }
  unfold useEffect. cbn [taskId setUploading setProcessingStatus setTaskId].
  fold answer. split; intros T; now rewrite T.
Qed.

Lemma commit_success_starts_polling_witness :
  useEffect (fst (uploadFile backend_without_taskId (handleFile twelve_MiB initial))) =
  None.
Proof.
  apply (commit_success_starts_polling backend_without_taskId
           (handleFile twelve_MiB initial) twelve_MiB "upload-1");
    try reflexivity; try discriminate.
  intros p Hp. vm_compute in Hp. vm_compute.
  destruct Hp as [<- | [<- | [<- | []]]]; auto.
Defined.

(** X7. [uploadFile] has no timeout. For a selected file and an
    initialization that answered, when only launched transfers settle, the
    component is left uploading exactly when no settled transfer failed and
    some transfer of the plan never settles; it then shows no error, has
    sent no completion request, and keeps the task and the processing
    status of before. *)
Theorem upload_hangs_on_an_unsettled_transfer
    (w : World) (s : State) (f : File) (uploadId : string)
    (Hfile : file s = Some f)
    (Hinit : initialize w = Some uploadId)
    (Hid : uploadId <> "")
    (Hlaunched : incl (settled w) (map partNumber (chunkPlan f))) :
  let r := uploadFile w s in
  (uploading (fst r) = true <->
   (forall pn, In pn (settled w) -> succeeds (put w pn) = true) /\
   (exists p, In p (chunkPlan f) /\ ~ In (partNumber p) (settled w))) /\
  (uploading (fst r) = true ->
   error (fst r) = None /\
   taskId (fst r) = taskId s /\
   processingStatus (fst r) = processingStatus s /\
   snd r = Initialize (object_key w f) :: launched w f uploadId).
Proof.
  intros r. unfold r.
  destruct (uploadFile_outcome w s f uploadId Hfile Hinit Hid)
    as [e t U _ [q (Q1 & Q2 & _)] | t U Et S P | t U _ A]; rewrite U; cbn [fst snd].
  - split; [|discriminate]. split; [discriminate|].
    intros [Hok _]. rewrite (Hok q Q1) in Q2. discriminate.
  - assert (Euploading : uploading (ui t) = true) by (rewrite Et, settle_ui; reflexivity).
    split.
    + split; [|intros _; exact Euploading]. intros _. split; [|exact P].
      intros pn Hpn. pose proof (Hlaunched pn Hpn) as L.
      apply in_map_iff in L. destruct L as [p [<- Hp]]. now apply S.
    + intros _. rewrite Et, settle_ui. repeat split.
  - split.
    + split.
      * now destruct (complete_ok _).
      * intros [_ [p [P1 P2]]]. exfalso. apply P2. now apply A.
    + now destruct (complete_ok _).
Qed.

Lemma upload_hangs_on_an_unsettled_transfer_witness :
  uploading (fst (uploadFile backend_part2_never_settles
                    (handleFile twelve_MiB initial))) = true.
Proof.
  apply (upload_hangs_on_an_unsettled_transfer backend_part2_never_settles
           (handleFile twelve_MiB initial) twelve_MiB "upload-1");
    try reflexivity; try discriminate.
  - intros x Hx. vm_compute in Hx. vm_compute. intuition.
  - split; [reflexivity|].
    exists {| partNumber := 2; start := 5242880; end_ := 10485760 |}.
    vm_compute. split; [right; left; reflexivity|].
    intros [H | [H | []]]; discriminate.
Defined.

Lemma remove_all_absent (c : ascii) (s : string) :
  ~ In c (list_ascii_of_string (JS.remove_all c s)).
Proof.
  induction s as [|a s IH]; simpl; [tauto|].
  destruct (Ascii.eqb a c) eqn:E; [exact IH|].
  simpl. intros [H | H]; [|now apply IH].
  subst. rewrite Ascii.eqb_refl in E. discriminate.
Qed.

Lemma remove_all_only (c : ascii) (s : string) :
  only c s = true -> JS.remove_all c s = "".
Proof.
  induction s as [|a s IH]; simpl; [reflexivity|].
  intros H. apply andb_prop in H. destruct H as [H1 H2]. rewrite H1. now apply IH.
Qed.

(** X8. Every entry of a completion request comes from a transfer that
    settled with a non-empty [ETag] header, and its [ETag] is that header
    with every double quote removed: it contains none. A header made of
    quotes only is a valid header for the callback, and the entry it
    records has the empty [ETag]. *)
Theorem committed_ETags_are_unquoted
    (w : World) (s : State) (key id : string) (parts : list Part) (part : Part)
    (Hsent : In (Complete key id parts) (snd (uploadFile w s)))
    (Hpart : In part parts) :
  In (PartNumber part) (settled w) /\
  ok (put w (PartNumber part)) = true /\
  (exists header,
     ETag_header (put w (PartNumber part)) = Some header /\
     header <> "" /\
     ETag part = JS.remove_all double_quote header /\
     (only double_quote header = true -> ETag part = "")) /\
  ~ In double_quote (list_ascii_of_string (ETag part)).
Proof.
  destruct (Complete_sent w s key id parts Hsent) as (f & _ & _ & _ & _ & P & _).
  rewrite P in Hpart. apply in_map_iff in Hpart. destruct Hpart as [pn [<- Hpn]].
  apply filter_In in Hpn. destruct Hpn as [Hs Hok].
  unfold succeeds, JS.truthy in Hok. apply andb_prop in Hok. destruct Hok as [O T].
  unfold recorded. cbn [PartNumber ETag].
  split; [exact Hs|]. split; [exact O|].
  destruct (ETag_header (put w pn)) as [h|]; [|discriminate].
  apply negb_true_iff in T. unfold JS.or_else. rewrite T.
  split; [|apply remove_all_absent].
  exists h. split; [reflexivity|]. split; [now apply String.eqb_neq|].
  split; [reflexivity | apply remove_all_only].
Qed.

Lemma committed_ETags_are_unquoted_witness :
  In 2 (settled (backend [3; 1; 2])).
Proof.
  apply (committed_ETags_are_unquoted (backend [3; 1; 2])
           (handleFile twelve_MiB initial)
           "1754784000000_clip.mp4" "upload-1"
           [ {| PartNumber := 3; ETag := "e3" |};
             {| PartNumber := 1; ETag := "e1" |};
             {| PartNumber := 2; ETag := "e2" |} ]
           {| PartNumber := 2; ETag := "e2" |}).
  - vm_compute. do 7 right. left. reflexivity.
  - right. right. left. reflexivity.
Defined.




Lemma catch_finally_error (e : Exn) (s : State) :
  JS.truthy (error (catch_finally e s)) = true /\
  uploading (catch_finally e s) = false /\
  file (catch_finally e s) = file s.
Proof.
  unfold catch_finally. cbn [error uploading file setUploading setError].
  split; [|split; reflexivity]. apply or_else_truthy. discriminate.
Qed.

Lemma uploadFile_error (w : World) (s : State) :
  error (fst (uploadFile w s)) = None \/
  JS.truthy (error (fst (uploadFile w s))) = true.
Proof.
  destruct (file s) as [f|] eqn:F.
  2:{ right. unfold uploadFile. rewrite F. reflexivity. }
  destruct (JS.truthy (initialize w)) eqn:T.
  2:{ right. rewrite (uploadFile_without_uploadId w s f F T). apply catch_finally_error. }
  unfold JS.truthy in T. destruct (initialize w) as [id|] eqn:I; [|discriminate].
  apply negb_true_iff, String.eqb_neq in T.
  destruct (uploadFile_outcome w s f id F I T) as [e t U _ _ | t U Et _ _ | t U Et _];
    rewrite U; cbn [fst].
  - right. apply catch_finally_error.
  - left. rewrite Et, settle_ui. reflexivity.
  - destruct (complete_ok _).
    + left. cbn [error setUploading setProcessingStatus setTaskId].
      rewrite Et, settle_ui. reflexivity.
    + right. apply catch_finally_error.
Qed.

(** X10. An upload that ends with an error leaves nothing to click: the
    error paragraph is rendered and the panel of the selected file, with
    the upload button, the progress bar and the processing status, is not.
    Selecting an acceptable file renders the panel again, with no error. *)
Theorem failed_upload_hides_the_button (w : World) (s : State) (g : File)
    (Hfailed : error (fst (uploadFile w s)) <> None) :
  let s' := fst (uploadFile w s) in
  renders_error s' = true /\
  renders_selection s' = false /\
  renders_progress_bar s' = false /\
  renders_processing_status s' = false /\
  (accepted g ->
   renders_selection (handleFile g s') = true /\
   renders_error (handleFile g s') = false).
Proof.
  intros s'. destruct (uploadFile_error w s) as [N | T]; [contradiction|].
  fold s' in T.
  unfold renders_progress_bar, renders_processing_status, renders_selection,
    renders_error.
  rewrite T. split; [reflexivity|].
  assert (E : match file s' with Some _ => negb true | None => false end = false)
    by now destruct (file s').
  rewrite E. split; [reflexivity|]. split; [reflexivity|]. split; [reflexivity|].
  intros [H1 H2].
  assert (A : handleFile g s' =
              setProcessingStatus None
                (setTaskId None
                   (setProgress 0%float (setFile (Some g) (setError None s'))))).
  { unfold handleFile. rewrite H1. cbn [negb]. rewrite Z.gtb_ltb.
    replace (Z.ltb _ (size g)) with false
      by (symmetry; apply Z.ltb_ge; exact H2).
    reflexivity. }
  rewrite A. split; reflexivity.
Qed.

Lemma failed_upload_hides_the_button_witness :
  renders_selection
    (fst (uploadFile backend_part2_without_ETag (handleFile twelve_MiB initial))) =
  false.
Proof.
  assert (H : error (fst (uploadFile backend_part2_without_ETag
                            (handleFile twelve_MiB initial))) <> None)
    by (vm_compute; discriminate).
  exact (proj1 (proj2 (failed_upload_hides_the_button backend_part2_without_ETag
                         (handleFile twelve_MiB initial) twelve_MiB H))).
Defined.






(** Two of three parts done: 67%. *)
Example button_label_two_of_three :
  button_label (ui (transfer_after (backend [3; 1; 2]) (handleFile twelve_MiB initial)
                      twelve_MiB 2)) = Some "Uploading... 67%".
Proof. vm_compute. reflexivity. Qed.

(** ** Further properties of the poller *)

Lemma on_status_clears (d : StatusData) (s s' : State) :
  on_status d s = inr (s', true) ->
  state d = "SUCCESS" \/ (state d = "FAILURE" /\ info d <> None).
Proof.
  unfold on_status.
  destruct (String.eqb (state d) "PROGRESS") eqn:P.
  { destruct (info d); discriminate. }
  destruct (String.eqb (state d) "SUCCESS") eqn:S.
  { intros _. left. now apply String.eqb_eq. }
  destruct (String.eqb (state d) "FAILURE") eqn:F.
  { destruct (info d); [|discriminate]. intros _. right.
    split; [now apply String.eqb_eq | discriminate]. }
  discriminate.
Qed.

Lemma run_poller_app (task : string) (es1 es2 : list PollEvent) (p : Poller) :
  run_poller task (es1 ++ es2) p = run_poller task es2 (run_poller task es1 p).
Proof. unfold run_poller. apply fold_left_app. Qed.

(** X11. The poller has no bound on its queries. As long as no response is
    a [SUCCESS] or a [FAILURE] with an [info] object, whatever else the
    responses are (also a [FAILURE] without [info], or an unknown state),
    a live poller stays live and has sent one status query per tick. *)
Theorem polling_never_gives_up (task : string) (ds : list StatusData) (p : Poller)
    (Hlive : live p = true)
    (Hnone : forall d, In d ds ->
       state d <> "SUCCESS" /\ (state d = "FAILURE" -> info d = None)) :
  live (run_poller task (answered ds) p) = true /\
  queries (run_poller task (answered ds) p) =
    (queries p ++ repeat (Status task) (List.length ds))%list.
Proof.
  revert p Hlive. induction ds as [|d ds IH]; intros p Hlive.
  - simpl. now rewrite app_nil_r.
  - change (answered (d :: ds)) with ([Tick; Response d] ++ answered ds)%list.
    rewrite run_poller_app.
    assert (S : live (run_poller task [Tick; Response d] p) = true /\
                queries (run_poller task [Tick; Response d] p) =
                (queries p ++ [Status task])%list).
    { unfold run_poller. cbn [fold_left poll]. rewrite Hlive. cbn [shown live queries].
      destruct (on_status d (shown p)) as [e|[s' c]] eqn:O; cbn [live queries].
      - auto.
      - destruct c; [|auto]. exfalso.
        destruct (Hnone d (or_introl eq_refl)) as [N1 N2].
        destruct (on_status_clears _ _ _ O) as [H | [H1 H2]]; [contradiction|].
        now apply H2, N2. }
    destruct S as [S1 S2].
    destruct (IH (fun x Hx => Hnone x (or_intror Hx)) _ S1) as [I1 I2].
    split; [exact I1|]. rewrite I2, S2, <- app_assoc. reflexivity.
Qed.

Lemma polling_never_gives_up_witness :
  live (run_poller "task-1" (answered [queued; transcribing; failure_without_info])
          polling) = true.
Proof.
  apply (polling_never_gives_up "task-1" [queued; transcribing; failure_without_info]
           polling eq_refl).
  intros d [<- | [<- | [<- | []]]]; split; try discriminate; reflexivity.
Defined.

Lemma poll_live_queries (task : string) (e : PollEvent) (p : Poller) :
  (live (poll task e p) = true -> live p = true) /\
  queries (poll task e p) =
    (queries p ++
     match e with
     | Tick => if live p then [Status task] else []
     | _ => []
     end)%list.
Proof.
  destruct e as [|d|]; simpl.
  - destruct (live p) eqn:L; simpl; rewrite ?app_nil_r; [auto|].
    split; [intros H; congruence | reflexivity].
  - rewrite app_nil_r.
    destruct (on_status d (shown p)) as [x|[s c]]; simpl; [auto|].
    split; [|reflexivity]. intros H. apply andb_prop in H. tauto.
  - rewrite app_nil_r. split; [discriminate | reflexivity].
Qed.

(** X12. A poller queries the status of its own task, on ticks, and
    nothing else: after any run, the queries it has sent are those it had
    sent before followed by status queries for its task, at most one per
    tick, and exactly one per tick when it is still live at the end. The
    interval never comes back: a poller that is live after a run was live
    before it. *)
Theorem poller_queries_its_task_on_ticks (task : string) (es : list PollEvent) (p : Poller) :
  exists k,
    queries (run_poller task es p) = (queries p ++ repeat (Status task) k)%list /\
    (k <= ticks es)%nat /\
    (live (run_poller task es p) = true -> live p = true /\ k = ticks es).
Proof.
  revert p. induction es as [|e es IH]; intros p.
  - exists O. simpl. rewrite app_nil_r. auto.
  - destruct (IH (poll task e p)) as [k (Q & K & L)].
    destruct (poll_live_queries task e p) as [Lp Qp].
    change (run_poller task (e :: es) p) with (run_poller task es (poll task e p)).
    destruct e as [|d|]; unfold ticks in *; cbn [filter List.length] in *.
    + destruct (live p) eqn:Lv.
      * exists (S k). rewrite Q, Qp, <- app_assoc. cbn [repeat app].
        split; [reflexivity|]. split; [lia|].
        intros H. destruct (L H) as [_ ->]. auto.
      * exists k. rewrite Q, Qp, app_nil_r.
        split; [reflexivity|]. split; [lia|].
        intros H. destruct (L H) as [H' _]. apply Lp in H'. congruence.
    + exists k. rewrite Q, Qp, app_nil_r.
      split; [reflexivity|]. split; [lia|].
      intros H. destruct (L H) as [H' ->]. auto.
    + exists k. rewrite Q, Qp, app_nil_r.
      split; [reflexivity|]. split; [lia|].
      intros H. destruct (L H) as [H' ->]. auto.
Qed.

(** X13. The cleanup of the effect cancels the polling for good: whatever
    happened before it and whatever happens after it, the poller is not
    live afterwards and has sent no query since the cleanup. *)
Theorem cleanup_cancels_polling (task : string) (before after : list PollEvent) (p : Poller) :
  live (run_poller task (before ++ Cleanup :: after) p) = false /\
  queries (run_poller task (before ++ Cleanup :: after) p) =
    queries (run_poller task before p).
Proof.
  rewrite run_poller_app.
  change (run_poller task (Cleanup :: after) (run_poller task before p))
    with (run_poller task after (poll task Cleanup (run_poller task before p))).
  destruct (stopped_sends_nothing task after
              (poll task Cleanup (run_poller task before p)) eq_refl) as [L Q].
  split; [exact L|]. rewrite Q. reflexivity.
Qed.

Lemma quiet_keeps_status (task : string) (es : list PollEvent) (p : Poller) :
  forallb (fun e => negb (is_Response e)) es = true ->
  shown (run_poller task es p) = shown p.
Proof.
  revert p. induction es as [|e es IH]; intros p H; [reflexivity|].
  cbn [forallb] in H. apply andb_prop in H. destruct H as [H1 H2].
  change (run_poller task (e :: es) p) with (run_poller task es (poll task e p)).
  rewrite (IH _ H2). destruct e as [|d|]; [|discriminate|reflexivity].
  simpl. now destruct (live p).
Qed.

(** X14. The response to a query that was in flight when the interval was
    cleared is still handled: on a poller that is no longer live, a
    [PROGRESS] response with an [info] object replaces the status shown
    (the completion message, say) by its detail; the poller stays stopped,
    sends nothing, and, as long as no other response arrives, the status
    stays the stale one. *)
Theorem late_response_overwrites_status
    (task : string) (d : StatusData) (i : Info) (es : list PollEvent) (p : Poller)
    (Hstopped : live p = false)
    (Hstate : state d = "PROGRESS")
    (Hinfo : info d = Some i)
    (Hquiet : forallb (fun e => negb (is_Response e)) es = true) :
  let p' := run_poller task (Response d :: es) p in
  processingStatus (shown p') = Some (JS.or_else (status i) "Processing...") /\
  live p' = false /\
  queries p' = queries p.
Proof.
  intros p'. unfold p'.
  change (run_poller task (Response d :: es) p)
    with (run_poller task es (poll task (Response d) p)).
  assert (E : poll task (Response d) p =
              {| shown := setProcessingStatus
                            (Some (JS.or_else (status i) "Processing...")) (shown p);
                 live := false; queries := queries p; unhandled := unhandled p |}).
  { unfold poll, on_status. rewrite Hstate, Hinfo, Hstopped. reflexivity. }
  rewrite (quiet_keeps_status task es _ Hquiet), E.
  split; [reflexivity|].
  destruct (stopped_sends_nothing task es
              {| shown := setProcessingStatus
                            (Some (JS.or_else (status i) "Processing...")) (shown p);
                 live := false; queries := queries p; unhandled := unhandled p |}
              eq_refl) as [L Q].
  split; [exact L | exact Q].
Qed.

Lemma late_response_overwrites_status_witness :
  processingStatus
    (shown (run_poller "task-1" [Tick; Tick; Response success; Response transcribing; Tick]
              polling)) = Some "Transcribing".
Proof.
  apply (late_response_overwrites_status "task-1" transcribing
           {| status := Some "Transcribing" |} [Tick]
           (run_poller "task-1" [Tick; Tick; Response success] polling));
    reflexivity.
Defined.

(** ** Properties of the log server and of its viewer *)

Module LogServerProperties.

Import LogServer.

Section Strings.

Variable toLowerCase : string -> string.
Variable toUpperCase : string -> string.

Lemma post_logs_cases (clock : string) (body : LogBody) (sv : Server) :
  (complete_body body = false /\
   post_logs toUpperCase clock body sv =
     (sv, BadRequest "Log message must include source, level, message, and timestamp.")) \/
  (complete_body body = true /\
   exists out reply,
     post_logs toUpperCase clock body sv =
       ({| logs := logs sv ++ [{| entry := body; receivedAt := clock |}];
           stdout := stdout sv ++ out |}, reply) /\
     match level body with
     | Str lvl =>
         out = ["[" ++ toUpperCase lvl ++ "] from " ++ text_of (source body) ++
                ": " ++ text_of (message body)] /\
         reply = Accepted
     | Other _ _ => out = [] /\ reply = ServerError (TypeError "toUpperCase")
     end).
Proof.
  unfold post_logs, complete_body.
  destruct (is_truthy (source body)), (is_truthy (level body)),
    (is_truthy (message body)), (is_truthy (timestamp body)); cbn [negb orb andb];
    try (left; split; reflexivity).
  right. split; [reflexivity|].
  destruct (level body) as [lvl|b t].
  - eexists. eexists. split; [reflexivity|]. split; reflexivity.
  - exists [], (ServerError (TypeError "toUpperCase")).
    rewrite app_nil_r. split; [reflexivity|]. split; reflexivity.
Qed.

Lemma serve_logs (c : Call) (sv : Server) :
  logs (fst (serve toUpperCase c sv)) = (logs sv ++ stored c)%list.
Proof.
  destruct c as [clock body| |]; cbn [serve stored fst]; rewrite ?app_nil_r; try reflexivity.
  destruct (post_logs_cases clock body sv) as [[C E] | [C (out & reply & E & _)]];
    rewrite E, C; cbn [fst logs]; now rewrite ?app_nil_r.
Qed.

(** X15. The server only ever appends. After any sequence of requests the
    array of logs is the one before it followed by one entry for each POST
    whose four fields are truthy, in the order of arrival, with the body as
    it was sent and the time of reception; GET requests change nothing, and
    [GET /logs] answers with exactly this array. *)
Theorem server_stores_in_order_of_arrival (cs : list Call) (sv : Server) :
  logs (run toUpperCase cs sv) = (logs sv ++ flat_map stored cs)%list /\
  serve toUpperCase GetLogs (run toUpperCase cs sv) =
    (run toUpperCase cs sv, Json (logs sv ++ flat_map stored cs)).
Proof.
  assert (L : forall sv, logs (run toUpperCase cs sv) = (logs sv ++ flat_map stored cs)%list).
  { clear sv. induction cs as [|c cs IH]; intros sv.
    - simpl. now rewrite app_nil_r.
    - change (run toUpperCase (c :: cs) sv)
        with (run toUpperCase cs (fst (serve toUpperCase c sv))).
      rewrite IH, serve_logs. cbn [flat_map]. now rewrite app_assoc. }
  split; [apply L|]. cbn [serve]. now rewrite L.
Qed.








Lemma filter_logs_throws (sourceValue levelValue : string) (l : list LogEntry) (log : LogEntry) :
  In log l ->
  is_Str (source (entry log)) = false \/
  (levelValue <> "" /\ is_Str (level (entry log)) = false) ->
  filter_logs toLowerCase sourceValue levelValue l = inl (TypeError "toLowerCase").
Proof.
  assert (K : forall x e, keeps toLowerCase sourceValue levelValue x = inl e ->
                          e = TypeError "toLowerCase").
  { intros x e. unfold keeps. destruct (source (entry x)); [|congruence].
    destruct (String.eqb levelValue ""); [discriminate|].
    destruct (level (entry x)); [discriminate | congruence]. }
  induction l as [|a l IH]; intros Hin Hbad; [contradiction|].
  cbn [filter_logs].
  destruct (keeps toLowerCase sourceValue levelValue a) as [e|b] eqn:E.
  - now rewrite (K _ _ E).
  - destruct Hin as [-> | Hin].
    + exfalso. unfold keeps in E. destruct Hbad as [B | [N B]].
      * destruct (source (entry log)); [discriminate B | discriminate E].
      * apply String.eqb_neq in N. rewrite N in E.
        destruct (source (entry log)); [|discriminate E].
        destruct (level (entry log)); [discriminate B | discriminate E].
    + now rewrite (IH Hin Hbad).
Qed.





(** X19. One log is enough to blank the viewer: when some log of [allLogs]
    has a source that is not a string, or a level that is not a string
    while a level is chosen in the filter, [renderLogs] throws the
    [TypeError] of calling [toLowerCase] and leaves the container empty,
    whatever the other logs are. *)
Theorem one_bad_log_blanks_the_viewer (v : Viewer) (log : LogEntry)
    (Hin : In log (allLogs v))
    (Hbad : is_Str (source (entry log)) = false \/
            (levelFilter v <> "" /\ is_Str (level (entry log)) = false)) :
  logContainer (fst (renderLogs toLowerCase toUpperCase v)) = [] /\
  snd (renderLogs toLowerCase toUpperCase v) = Some (TypeError "toLowerCase").
Proof.
  unfold renderLogs. rewrite (filter_logs_throws _ _ _ _ Hin Hbad). split; reflexivity.
Qed.




Lemma prefix_app (t s : string) :
  String.prefix t s = true <-> exists b, s = t ++ b.
Proof.
  revert s. induction t as [|c t IH]; intros s.
  - split; [intros _; exists s; reflexivity | intros _; now destruct s].
  - destruct s as [|d s]; simpl.
    + split; [discriminate | intros [b H]; discriminate].
    + destruct (Ascii.ascii_dec c d) as [<- | N].
      * rewrite IH. split; intros [b H]; exists b; [now rewrite H | now injection H].
      * split; [discriminate | intros [b H]; injection H as E _; congruence].
Qed.

(** [includes] is the search for a substring. *)
Lemma includes_spec (s t : string) :
  includes s t = true <-> exists a b, s = a ++ t ++ b.
Proof.
  induction s as [|c s IH]; cbn [includes].
  - rewrite orb_false_r, prefix_app. split.
    + intros [b H]. exists "", b. exact H.
    + intros [a [b H]]. destruct a; [now exists b|discriminate].
  - rewrite orb_true_iff, prefix_app, IH. split.
    + intros [[b H] | [a [b H]]].
      * exists "", b. exact H.
      * exists (String c a), b. simpl. now rewrite H.
    + intros [a [b H]]. destruct a as [|d a].
      * left. now exists b.
      * right. simpl in H. injection H as _ H. now exists a, b.
Qed.

(** X23. Rendering starts from an empty container each time, so nothing
    accumulates: the elements [renderLogs] leaves depend on [allLogs] and
    on the two filters only, fetching the same response again leaves the
    same elements, and setting the filters back after a change gives back
    the first rendering. *)
Theorem rendering_does_not_accumulate
    (v : Viewer) (response : list LogEntry) (sourceInput levelInput : string)
    (container : list Element) :
  logContainer
    (fst (renderLogs toLowerCase toUpperCase
            {| allLogs := allLogs v; sourceFilter := sourceFilter v;
               levelFilter := levelFilter v; logContainer := container;
               reported := reported v |})) =
  logContainer (fst (renderLogs toLowerCase toUpperCase v)) /\
  logContainer (fetchLogs toLowerCase toUpperCase response
                  (fetchLogs toLowerCase toUpperCase response v)) =
  logContainer (fetchLogs toLowerCase toUpperCase response v) /\
  logContainer
    (fst (filterLogs toLowerCase toUpperCase (sourceFilter v) (levelFilter v)
            (fst (filterLogs toLowerCase toUpperCase sourceInput levelInput v)))) =
  logContainer (fst (renderLogs toLowerCase toUpperCase v)).
Proof.
  assert (R : forall x,
            allLogs (fst (renderLogs toLowerCase toUpperCase x)) = allLogs x /\
            sourceFilter (fst (renderLogs toLowerCase toUpperCase x)) = sourceFilter x /\
            levelFilter (fst (renderLogs toLowerCase toUpperCase x)) = levelFilter x).
  { intros x. unfold renderLogs.
    destruct (filter_logs _ _ _ _) as [e|kept]; [repeat split|].
    destruct (append_all _ _ kept []); repeat split. }
  assert (C : forall x y,
            allLogs x = allLogs y -> sourceFilter x = sourceFilter y ->
            levelFilter x = levelFilter y ->
            logContainer (fst (renderLogs toLowerCase toUpperCase x)) =
            logContainer (fst (renderLogs toLowerCase toUpperCase y))).
  { intros x y A S L. unfold renderLogs. rewrite A, S, L.
    destruct (filter_logs _ _ _ _) as [e|kept]; [reflexivity|].
    destruct (append_all _ _ kept []); reflexivity. }
  assert (F : forall r x,
            logContainer (fetchLogs toLowerCase toUpperCase r x) =
            logContainer (fst (renderLogs toLowerCase toUpperCase
                                 {| allLogs := r; sourceFilter := sourceFilter x;
                                    levelFilter := levelFilter x;
                                    logContainer := logContainer x;
                                    reported := reported x |})) /\
            sourceFilter (fetchLogs toLowerCase toUpperCase r x) = sourceFilter x /\
            levelFilter (fetchLogs toLowerCase toUpperCase r x) = levelFilter x).
  { intros r x. unfold fetchLogs.
    pose proof (R {| allLogs := r; sourceFilter := sourceFilter x;
                     levelFilter := levelFilter x; logContainer := logContainer x;
                     reported := reported x |}) as (_ & S & L).
    destruct (renderLogs _ _ _) as [x' [e|]]; cbn [fst] in *; auto. }
  split; [now apply C|]. split.
  - destruct (F response (fetchLogs toLowerCase toUpperCase response v)) as (E1 & _ & _).
    destruct (F response v) as (E2 & S & L).
    rewrite E1, E2. apply C; [reflexivity | exact S | exact L].
  - unfold filterLogs. apply C; cbn [allLogs sourceFilter levelFilter]; try reflexivity.
    apply (R {| allLogs := allLogs v; sourceFilter := sourceInput;
                levelFilter := levelInput; logContainer := logContainer v;
                reported := reported v |}).
Qed.

End Strings.

(** The viewer on two logs, with the source filter [WORK]: the log of the
    worker is the one shown. *)
Example viewer_filters_by_source :
  map className
    (logContainer (fst (renderLogs lower upper (viewing [ready; slow] "WORK" "")))) =
  ["log-entry warn"].
Proof. vm_compute. reflexivity. Qed.


Lemma one_bad_log_blanks_the_viewer_witness :
  logContainer (fst (renderLogs lower upper (viewing [ready; poisoned; slow] "" "info"))) = [].
Proof.
  apply (one_bad_log_blanks_the_viewer lower upper
           (viewing [ready; poisoned; slow] "" "info") poisoned).
  - right. left. reflexivity.
  - right. split; [discriminate | reflexivity].
Defined.



End LogServerProperties.
